(** * pygestalt [nodes.py]: node lifecycle and port binding

    A shallow embedding of [src/nodes.py].  Python objects live in a heap
    (a list indexed by object identity); the functions of the module are
    state transformers over that heap which may raise.  A raised exception
    does not roll the heap back. *)

From stdpp Require Import gmap strings list pretty.

Open Scope Z_scope.

(** ** Values and objects *)

(** Object identity: the index of the object in the heap. *)
Abbreviation Ref := nat.

#[local] Set Warnings "-register-all".
Inductive Value :=
  | VNone
  | VInt (n : Z)
  | VStr (s : string)
  | VRef (r : Ref)
  | VTuple (items : list Value)
  | VKwargs (items : list (string * Value)).

(** Dictionary keys of the two port tables: port numbers and class objects
    (classes hash by identity). *)
Inductive Key :=
  | KInt (n : Z)
  | KRef (r : Ref).

Global Instance Key_eq_dec : EqDecision Key.
Proof. solve_decision. Defined.

Global Instance Key_countable : Countable Key.
Proof.
  refine (inj_countable'
            (fun k => match k with KInt n => inl n | KRef r => inr r end)
            (fun s => match s with inl n => KInt n | inr r => KRef r end) _).
  by intros [].
Defined.

(** Modelled from the spec: the [packets] module is not part of [src/]; a
    template is an ordered list of named, typed fields with a byte width
    (section 3 and section 6 of the specification), and the empty template
    carries zero fields. *)
Inductive FieldKind := pString | unsignedInt | pList.

Record Field := mkField {
  f_name : string;
  f_kind : FieldKind;
  f_width : option Value
}.

Inductive Obj :=
  | OInstance (dict : gmap string Value)
  | OType (name : string) (mro : list Ref) (dict : gmap string Value)
  | OEvent (isSet : bool)
  | OTemplate (name : string) (fields : list Field)
  | ODict (items : gmap Key Value).

Abbreviation Heap := (list Obj).

(** ** Exceptions and the state monad of the interpreter *)

Inductive PyErr :=
  | AttributeError (attr : string)
  | TypeError
  | IndexError
  | RecursionError
  | SystemError
  | Exception (msg : string).

Inductive Result (A : Type) :=
  | Ok (a : A)
  | Raise (e : PyErr).
Arguments Ok {A} a.
Arguments Raise {A} e.

Definition is_ok {A} (r : Result A) : Prop :=
  match r with Ok _ => True | Raise _ => False end.

Definition Py (A : Type) : Type := Heap -> Result A * Heap.

Definition ret {A} (a : A) : Py A := fun h => (Ok a, h).
Definition raise {A} (e : PyErr) : Py A := fun h => (Raise e, h).
Definition bind {A B} (c : Py A) (k : A -> Py B) : Py B :=
  fun h => match c h with
           | (Ok a, h') => k a h'
           | (Raise e, h') => (Raise e, h')
           end.

Notation "'let!' x ':=' c 'in' k" := (bind c (fun x => k))
  (at level 10, x name, c at level 200, k at level 200).

(** ** Heap primitives *)

Definition alloc (o : Obj) : Py Ref := fun h => (Ok (length h), h ++ [o]).

(** [self] as the methods see it: the instance object, and the attributes
    its class provides (looked up when the instance dictionary has none). *)
Record Self := mkSelf {
  self_ref : Ref;
  self_class : string -> option Value
}.

Definition inst_dict (h : Heap) (r : Ref) : option (gmap string Value) :=
  match h !! r with
  | Some (OInstance d) => Some d
  | _ => None
  end.

(** [self.name] *)
Definition getattr (self : Self) (name : string) : Py Value :=
  fun h => match inst_dict h (self_ref self) with
           | Some d =>
               match d !! name with
               | Some v => (Ok v, h)
               | None =>
                   match self_class self name with
                   | Some v => (Ok v, h)
                   | None => (Raise (AttributeError name), h)
                   end
               end
           | None => (Raise SystemError, h)
           end.

(** [self.name = v], also [self.__dict__.update({name: v})] *)
Definition setattr (self : Self) (name : string) (v : Value) : Py unit :=
  fun h => match inst_dict h (self_ref self) with
           | Some d => (Ok tt, <[self_ref self := OInstance (<[name := v]> d)]> h)
           | None => (Raise SystemError, h)
           end.

(** [cls.name = v] on a class object *)
Definition type_setattr (cls : Ref) (name : string) (v : Value) : Py unit :=
  fun h => match h !! cls with
           | Some (OType n mro d) => (Ok tt, <[cls := OType n mro (<[name := v]> d)]> h)
           | _ => (Raise SystemError, h)
           end.

(** [baseClass.__name__] *)
Definition type_name (baseClass : Value) : Py string :=
  fun h => match baseClass with
           | VRef r =>
               match h !! r with
               | Some (OType n _ _) => (Ok n, h)
               | _ => (Raise (AttributeError "__name__"), h)
               end
           | _ => (Raise (AttributeError "__name__"), h)
           end.

(** [type(typeName, (baseClass,), {})]: a new class with one base and an
    empty dictionary; its method resolution order is itself followed by
    the order of the base. *)
Definition new_type (typeName : string) (baseClass : Value) : Py Ref :=
  fun h => match baseClass with
           | VRef r =>
               match h !! r with
               | Some (OType _ mro _) =>
                   (Ok (length h), h ++ [OType typeName (length h :: mro) ∅])
               | _ => (Raise TypeError, h)
               end
           | _ => (Raise TypeError, h)
           end.

(** [threading.Event()] *)
Definition threading_Event : Py Ref := alloc (OEvent false).

(** [d.update({k: v})] *)
Definition dict_update (d : Value) (k : Key) (v : Value) : Py unit :=
  fun h => match d with
           | VRef r =>
               match h !! r with
               | Some (ODict m) => (Ok tt, <[r := ODict (<[k := v]> m)]> h)
               | _ => (Raise (AttributeError "update"), h)
               end
           | _ => (Raise (AttributeError "update"), h)
           end.

(** Modelled from the spec: [packets.template] and [packets.emptyTemplate]
    are not part of [src/]; they build a template object from a name and
    its fields, the empty template having no field. *)
Definition packets_template (name : string) (fields : list Field) : Py Value :=
  let! r := alloc (OTemplate name fields) in ret (VRef r).

Definition packets_emptyTemplate (name : string) : Py Value :=
  let! r := alloc (OTemplate name []) in ret (VRef r).

(** Attribute lookup on a class: the dictionaries along its [__mro__]. *)
Definition type_dict (h : Heap) (cls : Ref) : option (gmap string Value) :=
  match h !! cls with
  | Some (OType _ _ d) => Some d
  | _ => None
  end.

Definition type_mro (h : Heap) (cls : Ref) : list Ref :=
  match h !! cls with
  | Some (OType _ mro _) => mro
  | _ => []
  end.

Fixpoint lookup_along (h : Heap) (mro : list Ref) (name : string) : option Value :=
  match mro with
  | [] => None
  | c :: rest =>
      match type_dict h c with
      | Some d =>
          match d !! name with
          | Some v => Some v
          | None => lookup_along h rest name
          end
      | None => lookup_along h rest name
      end
  end.

Definition type_getattr (h : Heap) (cls : Ref) (name : string) : option Value :=
  lookup_along h (type_mro h cls) name.

(** [str(port)] *)
Definition str (n : Z) : string := pretty n.

(** [x != None] *)
Definition not_None (v : Value) : bool :=
  match v with VNone => false | _ => true end.

(** ** Node classes, method resolution order and the lifecycle trace *)

(** The four stage names looked up in a class dictionary. *)
Inductive Stage := StInit | StInitPackets | StInitPorts | StOnLoad.

Definition stage_name (s : Stage) : string :=
  match s with
  | StInit => "init"
  | StInitPackets => "initPackets"
  | StInitPorts => "initPorts"
  | StOnLoad => "onLoad"
  end.

Global Instance Stage_eq_dec : EqDecision Stage.
Proof. solve_decision. Defined.

(** A stage method: [def stage(self, *args, **kwargs)], user code acting
    on the heap. *)
Definition StageBody : Type := Self -> list Value -> list (string * Value) -> Py unit.

(** The two definitions of [_recursiveInit_] in the module. *)
Inductive RecInitImpl := Dummy_recursiveInit | Gestalt_recursiveInit.

(** A node class: its own [__dict__] and its own method resolution order.
    [c_parents] is [cls.__mro__] without [cls] itself.  Node classes are
    fixed at class definition time and are not changed afterwards. *)
Inductive NodeClass := mkClass {
  c_name : string;
  c_recursiveInit : option RecInitImpl;
  c_stage : Stage -> option StageBody;
  c_attrs : gmap string Value;
  c_parents : list NodeClass
}.

(** A method resolution order, most derived class first. *)
Abbreviation MRO := (list NodeClass).

(** [cls.mro()] *)
Definition mro_of (cls : NodeClass) : MRO := cls :: c_parents cls.

(** The parameters of the two definitions of [_recursiveInit_] that are
    bound by position: [self] and the depth. *)
Definition recursiveInit_params (impl : RecInitImpl) : list string :=
  match impl with
  | Dummy_recursiveInit => ["self"; "_recursionDepth_"]
  | Gestalt_recursiveInit => ["self"; "recursionDepth"]
  end.

(** Binding [**kwargs] in a call of a function whose parameters [params]
    are bound by position: a keyword that names one of them is a
    [TypeError] (multiple values for the argument). *)
Definition keyword_clash (params : list string) (kwargs : list (string * Value)) : bool :=
  existsb (fun kv => bool_decide (fst kv ∈ params)) kwargs.

Fixpoint class_getattr (mro : MRO) (name : string) : option Value :=
  match mro with
  | [] => None
  | c :: rest =>
      match c_attrs c !! name with
      | Some v => Some v
      | None => class_getattr rest name
      end
  end.

(** [cls._recursiveInit_], for the class with the resolution order [mro] *)
Fixpoint lookup_recursiveInit (mro : MRO) : option RecInitImpl :=
  match mro with
  | [] => None
  | c :: rest =>
      match c_recursiveInit c with
      | Some f => Some f
      | None => lookup_recursiveInit rest
      end
  end.

Definition self_of (mro : MRO) (r : Ref) : Self := mkSelf r (class_getattr mro).

(** One stage call: the level (index in the method resolution order) and
    class whose method is called, the arguments passed after [self], and
    the heap the method starts from. *)
Record Event := mkEvent {
  ev_depth : nat;
  ev_class : string;
  ev_stage : Stage;
  ev_args : list Value;
  ev_kwargs : list (string * Value);
  ev_heap : Heap
}.

(** Lifecycle computations: heap transformers that also log stage calls. *)
Definition Life (A : Type) : Type := Heap -> list Event * (Result A * Heap).

Definition lret {A} (a : A) : Life A := fun h => ([], (Ok a, h)).
Definition lraise {A} (e : PyErr) : Life A := fun h => ([], (Raise e, h)).
Definition lift {A} (c : Py A) : Life A := fun h => ([], c h).
Definition lbind {A B} (c : Life A) (k : A -> Life B) : Life B :=
  fun h => match c h with
           | (t, (Ok a, h')) => let '(t', r) := k a h' in (t ++ t', r)
           | (t, (Raise e, h')) => (t, (Raise e, h'))
           end.

Notation "'let*' x ':=' c 'in' k" := (lbind c (fun x => k))
  (at level 10, x name, c at level 200, k at level 200).

(** [if name in baseClass.__dict__: baseClass.name(self, ...)] *)
Definition call_stage (depth : nat) (baseClass : NodeClass) (s : Stage)
    (self : Self) (args : list Value) (kwargs : list (string * Value)) : Life unit :=
  fun h => match c_stage baseClass s with
           | Some body =>
               ([mkEvent depth (c_name baseClass) s args kwargs h], body self args kwargs h)
           | None => ([], (Ok tt, h))
           end.

(** [*v] and [**v] at a call site *)
Definition unpack_args (v : Value) : Py (list Value) :=
  match v with VTuple items => ret items | _ => raise TypeError end.
Definition unpack_kwargs (v : Value) : Py (list (string * Value)) :=
  match v with VKwargs items => ret items | _ => raise TypeError end.

(** [object]: no [_recursiveInit_], no stage. *)
Definition object_cls : NodeClass :=
  mkClass "object" None (fun _ => None) ∅ [].

(** ** [class baseVirtualNode(object)] *)
Module baseVirtualNode.

Definition __init__ (self : Self) (args : list Value) (kwargs : list (string * Value))
  : Py unit :=
  if keyword_clash ["self"] kwargs then raise TypeError
  else
    let! _ := setattr self "_initArgs_" (VTuple args) in
    setattr self "_initKwargs_" (VKwargs kwargs).

Definition _recursiveInit_ (self : Self) (_recursionDepth_ : nat)
    (args : list Value) (kwargs : list (string * Value)) : Life unit :=
  lret tt.

Definition cls : NodeClass :=
  mkClass "baseVirtualNode" (Some Dummy_recursiveInit) (fun _ => None) ∅ [object_cls].

End baseVirtualNode.

(** The two classes of the [core] module that [bindPort] refers to. *)
Record CoreModule := mkCore {
  genericOutboundActionObjectBlockOnReply : Ref;
  genericInboundActionObject : Ref
}.

(** ** [class baseGestaltNode(baseVirtualNode)] *)
Module baseGestaltNode.

(** [mro] is [self.__class__.mro()].  The parent's [_recursiveInit_] is
    looked up on the parent class, along the parent's own resolution
    order, and called with [self], the depth and the arguments.  [fuel]
    bounds the depth of the interpreter stack; [_init_] provides one frame
    per class of the method resolution order. *)
Fixpoint _recursiveInit_ (fuel : nat) (mro : MRO) (self : Self) (recursionDepth : nat)
    (args : list Value) (kwargs : list (string * Value)) : Life unit :=
  match fuel with
  | O => lraise RecursionError
  | S fuel' =>
      match mro !! recursionDepth with
      | None => lraise IndexError
      | Some baseClass =>
          match mro !! (recursionDepth + 1)%nat with
          | None => lraise IndexError
          | Some parentClass =>
              let* _ :=
                match lookup_recursiveInit (mro_of parentClass) with
                | None => lraise (AttributeError "_recursiveInit_")
                | Some impl =>
                    if keyword_clash (recursiveInit_params impl) kwargs
                    then lraise TypeError
                    else
                      match impl with
                      | Dummy_recursiveInit =>
                          baseVirtualNode._recursiveInit_ self (recursionDepth + 1)
                            args kwargs
                      | Gestalt_recursiveInit =>
                          _recursiveInit_ fuel' mro self (recursionDepth + 1) args kwargs
                      end
                end in
              let* _ := call_stage recursionDepth baseClass StInit self args kwargs in
              let* _ := call_stage recursionDepth baseClass StInitPackets self [] [] in
              let* _ := call_stage recursionDepth baseClass StInitPorts self [] [] in
              call_stage recursionDepth baseClass StOnLoad self [] []
      end
      end
  end.

(** [mro] is [self.__class__.mro()], along which [self._recursiveInit_] is
    looked up, the instance dictionary having no entry of this name
    ([method_visible] below); the unpacked arguments are bound to its
    parameters when it is called. *)
Definition _init_ (mro : MRO) (self : Self) : Life unit :=
  let* outTable := lift (alloc (ODict ∅)) in
  let* _ := lift (setattr self "_outboundPortTable_" (VRef outTable)) in
  let* inTable := lift (alloc (ODict ∅)) in
  let* _ := lift (setattr self "_inboundPortTable_" (VRef inTable)) in
  match lookup_recursiveInit mro with
  | None => lraise (AttributeError "_recursiveInit_")
  | Some impl =>
      let* initArgs := lift (getattr self "_initArgs_") in
      let* args := lift (unpack_args initArgs) in
      let* initKwargs := lift (getattr self "_initKwargs_") in
      let* kwargs := lift (unpack_kwargs initKwargs) in
      if keyword_clash (recursiveInit_params impl) kwargs then lraise TypeError
      else
        match impl with
        | Dummy_recursiveInit => baseVirtualNode._recursiveInit_ self 0 args kwargs
        | Gestalt_recursiveInit => _recursiveInit_ (length mro) mro self 0 args kwargs
        end
  end.

(** [def init(self, *args, **kwargs)] *)
Definition init : StageBody := fun self args kwargs =>
  if keyword_clash ["self"] kwargs then raise TypeError else ret tt.
Definition initPackets : StageBody := fun self _ _ => ret tt.
Definition initPorts : StageBody := fun self _ _ => ret tt.
Definition onLoad : StageBody := fun self _ _ => ret tt.

Definition addDerivedType (self : Self) (baseClass : Value) (name : option string)
  : Py Ref :=
  let! typeName := match name with
                   | Some n => ret n             (* use provided name *)
                   | None => type_name baseClass (* reuse name of base class *)
                   end in
  let! newType := new_type typeName baseClass in
  let! _ := setattr self typeName (VRef newType) in
  ret newType.

(** The two calls [self.addDerivedType(...)] are calls of the method of
    the class, which is what [self.addDerivedType] evaluates to as long as
    the instance dictionary has no entry of this name ([method_visible]
    below). *)
Definition bindPort (core : CoreModule) (self : Self) (port : Z)
    (outboundFunction outboundTemplate inboundFunction inboundTemplate : Value)
  : Py unit :=
  let! inboundPacketFlag := threading_Event in
  (* GENERATE actionObject CLASSES *)
  let! outboundActionObjectClass :=
    (if not_None outboundFunction then
       let! c := addDerivedType self outboundFunction None in
       let! _ := type_setattr c "_baseActionObject_" outboundFunction in
       ret c
     else
       let typeName := "outboundActionObjectOnPort" +:+ str port in
       let! c := addDerivedType self
                   (VRef (genericOutboundActionObjectBlockOnReply core))
                   (Some typeName) in
       let! _ := type_setattr c "_baseActionObject_"
                   (VRef (genericOutboundActionObjectBlockOnReply core)) in
       ret c) in
  let! inboundActionObjectClass :=
    (if not_None inboundFunction then
       let! c := addDerivedType self inboundFunction None in
       let! _ := type_setattr c "_baseActionObject_" inboundFunction in
       ret c
     else
       let typeName := "inboundActionObjectOnPort" +:+ str port in
       let! c := addDerivedType self
                   (VRef (genericInboundActionObject core)) (Some typeName) in
       let! _ := type_setattr c "_baseActionObject_" inboundFunction in
       ret c) in
  (* GENERATE MISSING PACKET TEMPLATES *)
  let! outboundTemplate :=
    (if not_None outboundTemplate then ret outboundTemplate
     else packets_emptyTemplate ("outboundTemplateOnPort" +:+ str port)) in
  let! inboundTemplate :=
    (if not_None inboundTemplate then ret inboundTemplate
     else packets_emptyTemplate ("inboundTemplateOnPort" +:+ str port)) in
  (* STORE PARAMETERS IN actionObject CLASSES *)
  let! _ := type_setattr outboundActionObjectClass "_port_" (VInt port) in
  let! _ := type_setattr inboundActionObjectClass "_port_" (VInt port) in
  let! _ := type_setattr outboundActionObjectClass "_inboundPacketFlag_"
              (VRef inboundPacketFlag) in
  let! _ := type_setattr inboundActionObjectClass "_inboundPacketFlag_"
              (VRef inboundPacketFlag) in
  let! _ := type_setattr outboundActionObjectClass "_outboundTemplate_" outboundTemplate in
  let! _ := type_setattr inboundActionObjectClass "_outboundTemplate_" outboundTemplate in
  let! _ := type_setattr outboundActionObjectClass "_inboundTemplate_" inboundTemplate in
  let! _ := type_setattr inboundActionObjectClass "_inboundTemplate_" inboundTemplate in
  (* UPDATE VIRTUAL NODE PORT DICTIONARIES *)
  let! outTable := getattr self "_outboundPortTable_" in
  let! _ := dict_update outTable (KRef outboundActionObjectClass) (VInt port) in
  let! inTable := getattr self "_inboundPortTable_" in
  dict_update inTable (KInt port) (VRef inboundActionObjectClass).

Definition cls : NodeClass :=
  mkClass "baseGestaltNode" (Some Gestalt_recursiveInit)
    (fun s => Some match s with
                   | StInit => init
                   | StInitPackets => initPackets
                   | StInitPorts => initPorts
                   | StOnLoad => onLoad
                   end)
    ∅ (mro_of baseVirtualNode.cls).

End baseGestaltNode.

(** Modelled from the spec: the field constructors of the [packets] module
    are not part of [src/]; a field is a name, an encoding kind and a byte
    width (absent for variable-width text). *)
Definition packets_pString (name : string) (width : option Value) : Field :=
  mkField name pString width.
Definition packets_unsignedInt (name : string) (width : Value) : Field :=
  mkField name unsignedInt (Some width).
Definition packets_pList (name : string) (width : Value) : Field :=
  mkField name pList (Some width).

(** ** [class gestaltNode(baseGestaltNode)] *)
Module gestaltNode.

(** [def init(self)]: takes no argument besides [self]. *)
Definition init : StageBody := fun self args kwargs =>
  match args, kwargs with
  | [], [] => setattr self "bootPageSize" (VInt 128)
  | _, _ => raise TypeError
  end.

Definition initPackets : StageBody := fun self _ _ =>
  (* Node Status *)
  let! t := packets_template "statusResponse"
              [packets_pString "status" (Some (VInt 1));
               packets_unsignedInt "appValidity" (VInt 1)] in
  let! _ := setattr self "statusResponsePacket" t in
  (* Bootloader Command *)
  let! t := packets_template "bootCommandRequest"
              [packets_unsignedInt "commandCode" (VInt 1)] in
  let! _ := setattr self "bootCommandRequestPacket" t in
  let! t := packets_template "bootCommandResponse"
              [packets_unsignedInt "responseCode" (VInt 1);
               packets_unsignedInt "pageNumber" (VInt 2)] in
  let! _ := setattr self "bootCommandResponsePacket" t in
  (* Bootloader Write *)
  let! bootPageSize := getattr self "bootPageSize" in
  let! t := packets_template "bootWriteRequest"
              [packets_unsignedInt "commandCode" (VInt 1);
               packets_unsignedInt "pageNumber" (VInt 2);
               packets_pList "writeData" bootPageSize] in
  let! _ := setattr self "bootWriteRequestPacket" t in
  let! t := packets_template "bootWriteResponse"
              [packets_unsignedInt "responseCode" (VInt 1);
               packets_unsignedInt "pageNumber" (VInt 2)] in
  let! _ := setattr self "bootWriteResponsePacket" t in
  (* Bootloader Read *)
  let! t := packets_template "bootReadRequest"
              [packets_unsignedInt "pageNumber" (VInt 2)] in
  let! _ := setattr self "bootReadRequestPacket" t in
  let! bootPageSize := getattr self "bootPageSize" in
  let! t := packets_template "bootReadResponse"
              [packets_pList "readData" bootPageSize] in
  let! _ := setattr self "bootReadResponsePacket" t in
  (* Request URL *)
  let! t := packets_template "urlResponse" [packets_pString "URL" None] in
  let! _ := setattr self "urlResponsePacket" t in
  (* Set Address *)
  let! t := packets_template "setAddressRequest"
              [packets_pList "setAddress" (VInt 2)] in
  let! _ := setattr self "setAddressRequestPacket" t in
  let! t := packets_template "setAddressResponse" [packets_pString "URL" None] in
  setattr self "setAddressResponsePacket" t.

Definition initPorts (core : CoreModule) : StageBody := fun self _ _ =>
  let bindPort := baseGestaltNode.bindPort core self in
  (* Node Status *)
  let! statusRequest := getattr self "statusRequest" in
  let! statusResponsePacket := getattr self "statusResponsePacket" in
  let! _ := bindPort 1 statusRequest VNone VNone statusResponsePacket in
  (* Bootloader Command *)
  let! bootCommandRequest := getattr self "bootCommandRequest" in
  let! bootCommandRequestPacket := getattr self "bootCommandRequestPacket" in
  let! bootCommandResponsePacket := getattr self "bootCommandResponsePacket" in
  let! _ := bindPort 2 bootCommandRequest bootCommandRequestPacket
              VNone bootCommandResponsePacket in
  (* Bootloader Write *)
  let! bootWriteRequest := getattr self "bootWriteRequest" in
  let! bootWriteRequestPacket := getattr self "bootWriteRequestPacket" in
  let! bootWriteResponsePacket := getattr self "bootWriteResponsePacket" in
  let! _ := bindPort 3 bootWriteRequest bootWriteRequestPacket
              VNone bootWriteResponsePacket in
  (* Bootloader Read *)
  let! bootReadRequest := getattr self "bootReadRequest" in
  let! bootReadRequestPacket := getattr self "bootReadRequestPacket" in
  let! bootReadResponsePacket := getattr self "bootReadResponsePacket" in
  let! _ := bindPort 4 bootReadRequest bootReadRequestPacket
              VNone bootReadResponsePacket in
  (* URL Request *)
  let! urlRequest := getattr self "urlRequest" in
  let! urlResponsePacket := getattr self "urlResponsePacket" in
  let! _ := bindPort 5 urlRequest VNone VNone urlResponsePacket in
  (* Set Address *)
  let! setAddressRequest := getattr self "setAddressRequest" in
  let! setAddressRequestPacket := getattr self "setAddressRequestPacket" in
  let! setAddressResponsePacket := getattr self "setAddressResponsePacket" in
  let! _ := bindPort 6 setAddressRequest setAddressRequestPacket
              VNone setAddressResponsePacket in
  (* Identify Node *)
  let! identifyRequest := getattr self "identifyRequest" in
  let! _ := bindPort 7 identifyRequest VNone VNone VNone in
  (* Reset Node *)
  let! resetRequest := getattr self "resetRequest" in
  bindPort 255 resetRequest VNone VNone VNone.

Definition cls (core : CoreModule) : NodeClass :=
  mkClass "gestaltNode" None
    (fun s => match s with
              | StInit => Some init
              | StInitPackets => Some initPackets
              | StInitPorts => Some (initPorts core)
              | StOnLoad => None
              end)
    ∅ (mro_of baseGestaltNode.cls).

(** [gestaltNode.mro()] *)
Definition mro (core : CoreModule) : MRO := mro_of (cls core).

End gestaltNode.

(** ** The lifecycle order, following the words of the specification *)

(** Stage order within one level. *)
Definition stages : list Stage := [StInit; StInitPackets; StInitPorts; StOnLoad].

(** [name in cls.__dict__] *)
Definition defines (c : NodeClass) (s : Stage) : bool :=
  match c_stage c s with Some _ => true | None => false end.

(** The stages a level contributes: those it defines directly, in stage order. *)
Definition level_order (mro : MRO) (depth : nat) : list (nat * Stage) :=
  match mro !! depth with
  | Some c => map (pair depth) (List.filter (defines c) stages)
  | None => []
  end.

(** Levels from the most base one (the last of the method resolution
    order) to the most derived one (index 0). *)
Definition lifecycle_order (mro : MRO) : list (nat * Stage) :=
  flat_map (level_order mro) (rev (seq 0 (length mro))).

Definition ev_key (e : Event) : nat * Stage := (ev_depth e, ev_stage e).

(** The resolution order of a node type: user classes in front of
    [baseGestaltNode], [baseVirtualNode] and [object], none of which
    overrides [_recursiveInit_]. *)
Definition node_type (mro : MRO) : Prop :=
  ∃ user : list NodeClass,
    mro = user ++ [baseGestaltNode.cls; baseVirtualNode.cls; object_cls] ∧
    Forall (fun c => c_recursiveInit c = None) user.

(** A class hierarchy built by single inheritance, an inheritance chain:
    the resolution order of the class at position [i] is the resolution
    order of the node type from position [i] on. *)
Definition single_inheritance (mro : MRO) : Prop :=
  ∀ i c, mro !! i = Some c -> mro_of c = drop i mro.

(** The keywords that clash with a parameter of [__init__] or of one of the
    two definitions of [_recursiveInit_]. *)
Definition reserved_keywords : list string := ["self"; "recursionDepth"; "_recursionDepth_"].

(** Keyword arguments none of which is named like one of these
    parameters. *)
Definition keywords_free (kwargs : list (string * Value)) : Prop :=
  keyword_clash reserved_keywords kwargs = false.

(** Every level of the node type that defines a stage has run it: the
    stage calls made are those of the lifecycle order. *)
Definition every_level_runs (mro : MRO) (trace : list Event) : Prop :=
  map ev_key trace = lifecycle_order mro.

(** Every level of the node type that defines [init] has been called with
    the constructor arguments. *)
Definition every_init_receives (mro : MRO) (args : list Value)
    (kwargs : list (string * Value)) (trace : list Event) : Prop :=
  ∀ depth c, mro !! depth = Some c -> defines c StInit = true ->
    ∃ e, e ∈ trace ∧ ev_depth e = depth ∧ ev_stage e = StInit ∧
         ev_args e = args ∧ ev_kwargs e = kwargs.

(** The arguments a stage method is called with. *)
Definition stage_args (s : Stage) (args : list Value) (kwargs : list (string * Value))
  : list Value * list (string * Value) :=
  match s with StInit => (args, kwargs) | _ => ([], []) end.

(** ** The state of the two port tables *)

Definition table_attrs : list string := ["_outboundPortTable_"; "_inboundPortTable_"].

(** [self.attr] is the dictionary object [t] with contents [m]. *)
Definition has_table (self : Self) (attr : string) (h : Heap) (t : Ref)
    (m : gmap Key Value) : Prop :=
  getattr self attr h = (Ok (VRef t), h) ∧ h !! t = Some (ODict m).

(** A node instance whose two tables exist. *)
Definition initialised (self : Self) (h : Heap)
    (outT : Ref) (outM : gmap Key Value) (inT : Ref) (inM : gmap Key Value) : Prop :=
  is_Some (inst_dict h (self_ref self)) ∧
  has_table self "_outboundPortTable_" h outT outM ∧
  has_table self "_inboundPortTable_" h inT inM.

Definition tables_exist (self : Self) (h : Heap) : Prop :=
  ∃ outT outM inT inM, initialised self h outT outM inT inM.

Definition tables_empty (self : Self) (h : Heap) : Prop :=
  ∃ outT inT, initialised self h outT ∅ inT ∅.

(** Every stage method of the node type keeps the heap property [P],
    whether it returns or raises. *)
Definition stages_preserve (P : Heap -> Prop) (mro : MRO) (self : Self) : Prop :=
  ∀ depth c s body args kwargs h,
    mro !! depth = Some c -> c_stage c s = Some body ->
    P h -> P (snd (body self args kwargs h)).

(** ** Handler classes *)

Definition is_class (h : Heap) (v : Value) : Prop :=
  match v with
  | VRef r => match h !! r with Some (OType _ _ _) => True | _ => False end
  | _ => False
  end.

Definition class_name_of (h : Heap) (v : Value) : string :=
  match v with
  | VRef r => match h !! r with Some (OType name _ _) => name | _ => "" end
  | _ => ""
  end.

Definition class_mro_of (h : Heap) (v : Value) : list Ref :=
  match v with VRef r => type_mro h r | _ => [] end.

(** The base class a handler is derived from: the supplied one, or the
    generic class of [core]. *)
Definition base_of (generic : Ref) (fn : Value) : Value :=
  if not_None fn then fn else VRef generic.

(** The name of the derived class. *)
Definition derived_name (h : Heap) (generated : string) (fn : Value) : string :=
  if not_None fn then class_name_of h fn else generated.

(** The names under which a derived class must not be stored in the
    instance dictionary, where an entry hides what the class of the
    instance provides: the two table attributes, which [bindPort] reads
    last, and its method [addDerivedType], which it calls once for each of
    the two classes. *)
Definition reserved_names : list string :=
  ["_outboundPortTable_"; "_inboundPortTable_"; "addDerivedType"].

(** A handler argument that [bindPort] can derive from: omitted, with the
    generic class loaded; or a class whose name is not reserved (the
    derived class is stored in the instance dictionary under its name). *)
Definition handler_ok (generic : Ref) (fn : Value) (h : Heap) : Prop :=
  is_class h (base_of generic fn) ∧
  (not_None fn = true -> class_name_of h fn ∉ reserved_names).

Definition handlers_ok (core : CoreModule) (outboundFunction inboundFunction : Value)
    (h : Heap) : Prop :=
  handler_ok (genericOutboundActionObjectBlockOnReply core) outboundFunction h ∧
  handler_ok (genericInboundActionObject core) inboundFunction h.

(** The attributes of a derived class after binding, in the order written. *)
Definition binding_attrs (recorded : Value) (port : Z) (flag : Ref) (ot it : Value)
  : gmap string Value :=
  <["_inboundTemplate_" := it]>
    (<["_outboundTemplate_" := ot]>
       (<["_inboundPacketFlag_" := VRef flag]>
          (<["_port_" := VInt port]> (<["_baseActionObject_" := recorded]> ∅)))).

(** The attributes that parameterise a binding. *)
Definition binding_attr_names : list string :=
  ["_port_"; "_inboundPacketFlag_"; "_outboundTemplate_"; "_inboundTemplate_"].

(** A class all of whose ancestors are class objects of the heap. *)
Definition wf_class (h : Heap) (cls : Ref) : Prop :=
  is_class h (VRef cls) ∧ Forall (fun c => is_class h (VRef c)) (type_mro h cls).

(** The port has an inbound handler in the table of [self]. *)
Definition port_bound (self : Self) (port : Z) (h : Heap) : Prop :=
  ∃ t m, has_table self "_inboundPortTable_" h t m ∧ is_Some (m !! KInt port).

(** Binding a bound port again raises. *)
Definition double_bind_rejected (core : CoreModule) : Prop :=
  ∀ self port oF oT iF iT h,
    port_bound self port h ->
    ∃ e, fst (baseGestaltNode.bindPort core self port oF oT iF iT h) = Raise e.

(** ** An example world

    The [core] module is loaded (its two generic classes are objects 0 and
    1), a user has defined the handler classes that the reference catalog
    binds and a node class deriving from [gestaltNode], and three instances
    have been allocated (objects 10, 11 and 12). *)

Definition core0 : CoreModule := mkCore 0%nat 1%nat.

Definition handler_class (name : string) (r : Ref) : Obj := OType name [r] ∅.

Definition heap0 : Heap :=
  [handler_class "genericOutboundActionObjectBlockOnReply" 0;
   handler_class "genericInboundActionObject" 1;
   handler_class "statusRequest" 2;
   handler_class "bootCommandRequest" 3;
   handler_class "bootWriteRequest" 4;
   handler_class "bootReadRequest" 5;
   handler_class "urlRequest" 6;
   handler_class "setAddressRequest" 7;
   handler_class "identifyRequest" 8;
   handler_class "resetRequest" 9;
   OInstance ∅;
   OInstance ∅;
   OInstance ∅].

(** [class exampleNode(gestaltNode)]: provides the handler classes as class
    attributes and binds port 10 with all defaults in [onLoad]. *)
Definition exampleNode : NodeClass :=
  mkClass "exampleNode" None
    (fun s => match s with
              | StOnLoad =>
                  Some (fun self _ _ =>
                          baseGestaltNode.bindPort core0 self 10 VNone VNone VNone VNone)
              | _ => None
              end)
    (list_to_map
       [("statusRequest", VRef 2%nat); ("bootCommandRequest", VRef 3%nat);
        ("bootWriteRequest", VRef 4%nat); ("bootReadRequest", VRef 5%nat);
        ("urlRequest", VRef 6%nat); ("setAddressRequest", VRef 7%nat);
        ("identifyRequest", VRef 8%nat); ("resetRequest", VRef 9%nat)])
    (gestaltNode.mro core0).

Definition example_mro : MRO := mro_of exampleNode.

(** [class mixinNode(baseVirtualNode)] and
    [class mixedNode(mixinNode, gestaltNode)], which define no stage: the
    resolution order of [mixedNode] is [mixedNode], [mixinNode],
    [gestaltNode], [baseGestaltNode], [baseVirtualNode], [object]. *)
Definition mixinNode : NodeClass :=
  mkClass "mixinNode" None (fun _ => None) ∅ (mro_of baseVirtualNode.cls).

Definition mixedNode : NodeClass :=
  mkClass "mixedNode" None (fun _ => None) ∅ (mixinNode :: gestaltNode.mro core0).

Definition mixed_mro : MRO := mro_of mixedNode.

(** Construction followed by logical initialisation. *)
Definition initialise (mro : MRO) (self : Self) (args : list Value)
    (kwargs : list (string * Value)) (h : Heap) : Heap :=
  snd (snd (baseGestaltNode._init_ mro self
              (snd (baseVirtualNode.__init__ self args kwargs h)))).

(** An instance of the example node type, constructed without arguments. *)
Definition nodeA : Self := self_of example_mro 10%nat.
Definition heapA_constructed : Heap := snd (baseVirtualNode.__init__ nodeA [] [] heap0).

(** An instance of [mixedNode], constructed without arguments. *)
Definition nodeM : Self := self_of mixed_mro 10%nat.
Definition heapM_constructed : Heap := snd (baseVirtualNode.__init__ nodeM [] [] heap0).

(** Two instances of [baseGestaltNode] itself, constructed and initialised:
    the tables of [nodeP] are objects 13 and 14, those of [nodeQ] objects
    15 and 16, all empty. *)
Definition plain_mro : MRO := [baseGestaltNode.cls; baseVirtualNode.cls; object_cls].
Definition nodeP : Self := self_of plain_mro 11%nat.
Definition nodeQ : Self := self_of plain_mro 12%nat.
Definition heapPQ : Heap :=
  initialise plain_mro nodeQ [] [] (initialise plain_mro nodeP [] [] heap0).

(** [nodeP] after [bindPort(port = 1, outboundFunction = statusRequest)]:
    the reply flag is object 17, the derived classes objects 18 and 19. *)
Definition heapPQ_port1 : Heap :=
  snd (baseGestaltNode.bindPort core0 nodeP 1 (VRef 2%nat) VNone VNone VNone heapPQ).

(** ** Observations on instances and templates *)

(** The value stored under [name] in the instance dictionary. *)
Definition instance_attr (h : Heap) (r : Ref) (name : string) : option Value :=
  match inst_dict h r with Some d => d !! name | None => None end.

(** [self.name] is what the class of [self] provides under [name], a method
    for instance: the instance dictionary has no entry of this name, which
    would be found first. *)
Definition method_visible (self : Self) (name : string) (h : Heap) : Prop :=
  instance_attr h (self_ref self) name = None.

(** [bindPort], called in [h], finds its method [addDerivedType] both times
    it calls it: the instance dictionary has no entry of this name when
    [bindPort] is called, and the derived outbound class is not stored
    under this name. *)
Definition derives_both (self : Self) (port : Z) (outboundFunction : Value) (h : Heap)
  : Prop :=
  method_visible self "addDerivedType" h ∧
  derived_name h ("outboundActionObjectOnPort" +:+ str port) outboundFunction
    ≠ "addDerivedType".

Definition field_width (fields : list Field) (name : string) : option Value :=
  match List.find (fun f => String.eqb (f_name f) name) fields with
  | Some f => f_width f
  | None => None
  end.

(** The width of field [field] of the template stored in [self.attr]. *)
Definition template_field_width (h : Heap) (r : Ref) (attr field : string)
  : option Value :=
  match instance_attr h r attr with
  | Some (VRef t) =>
      match h !! t with
      | Some (OTemplate _ fields) => field_width fields field
      | _ => None
      end
  | _ => None
  end.

(** The value stored under [name] in the own dictionary of a class. *)
Definition class_attr (h : Heap) (cls : Ref) (name : string) : option Value :=
  match type_dict h cls with Some d => d !! name | None => None end.

(** ** Predicates used to state and prove the properties *)

Definition trace_of {A} (x : list Event * (Result A * Heap)) : list Event := fst x.
Definition result_of {A} (x : list Event * (Result A * Heap)) : Result A := fst (snd x).
Definition heap_of {A} (x : list Event * (Result A * Heap)) : Heap := snd (snd x).

(** The stage calls of [c] follow the schedule [sched]: what has been
    called is always a prefix of it, and all of it when [c] returns. *)
Definition follows {A} (sched : list (nat * Stage)) (c : Life A) : Prop :=
  ∀ h, map ev_key (trace_of (c h)) `prefix_of` sched ∧
       (is_ok (result_of (c h)) -> map ev_key (trace_of (c h)) = sched).

(** The schedule of the levels [depth .. depth + k - 1], most base first. *)
Definition order_from (mro : MRO) (depth k : nat) : list (nat * Stage) :=
  flat_map (level_order mro) (rev (seq depth k)).

(** [c] keeps the heap property [P] and every stage call it logs has [Ψ]. *)
Definition maintains {A} (P : Heap -> Prop) (Ψ : Event -> Prop) (c : Life A) : Prop :=
  ∀ h, P h -> Forall Ψ (trace_of (c h)) ∧ P (heap_of (c h)).

(** [c] returns from every heap. *)
Definition returns {A} (c : Life A) : Prop := ∀ h, is_ok (result_of (c h)).

(** Every stage method of the node type returns. *)
Definition stages_total (mro : MRO) (self : Self) : Prop :=
  ∀ depth c s body args kwargs h,
    mro !! depth = Some c -> c_stage c s = Some body ->
    is_ok (fst (body self args kwargs h)).

(** Nothing touches the heap before the first stage call of [c]. *)
Definition quiet_start {A} (c : Life A) : Prop :=
  ∀ h, (trace_of (c h) = [] -> heap_of (c h) = h) ∧
       (∀ e, head (trace_of (c h)) = Some e -> ev_heap e = h).

Definition heap_neutral {A} (c : Py A) : Prop := ∀ h, snd (c h) = h.

(** The instance dictionary once [_init_] has created the two tables. *)
Definition with_tables (d : gmap string Value) (n : nat) : gmap string Value :=
  <["_inboundPortTable_" := VRef (S n)]> (<["_outboundPortTable_" := VRef n]> d).

(** What [_init_] does after creating the tables. *)
Definition init_tail (mro : MRO) (self : Self) : Life unit :=
  match lookup_recursiveInit mro with
  | None => lraise (AttributeError "_recursiveInit_")
  | Some impl =>
      let* initArgs := lift (getattr self "_initArgs_") in
      let* args := lift (unpack_args initArgs) in
      let* initKwargs := lift (getattr self "_initKwargs_") in
      let* kwargs := lift (unpack_kwargs initKwargs) in
      if keyword_clash (recursiveInit_params impl) kwargs then lraise TypeError
      else
        match impl with
        | Dummy_recursiveInit => baseVirtualNode._recursiveInit_ self 0 args kwargs
        | Gestalt_recursiveInit =>
            baseGestaltNode._recursiveInit_ (length mro) mro self 0 args kwargs
        end
  end.

(** The method resolution order of a node type with the user classes
    [user], deriving from [baseGestaltNode] or from [gestaltNode]. *)
Definition chain_of (user : list NodeClass) : MRO :=
  user ++ [baseGestaltNode.cls; baseVirtualNode.cls; object_cls].

Definition gestalt_chain_of (core : CoreModule) (user : list NodeClass) : MRO :=
  user ++ gestaltNode.mro core.

(** What the trace shows of the level of [gestaltNode]: its [init],
    [initPackets] and [initPorts] are called in this order; [initPackets]
    starts with the page size set to 128, and [initPorts] starts with the
    two data fields as wide as the page size. *)
Definition page_size_established (r : Ref) (level : nat) (trace : list Event) : Prop :=
  ∃ before e_init e_packets e_ports after,
    trace = before ++ [e_init; e_packets; e_ports] ++ after ∧
    (ev_depth e_init, ev_class e_init, ev_stage e_init) = (level, "gestaltNode", StInit) ∧
    (ev_depth e_packets, ev_class e_packets, ev_stage e_packets) =
      (level, "gestaltNode", StInitPackets) ∧
    (ev_depth e_ports, ev_class e_ports, ev_stage e_ports) =
      (level, "gestaltNode", StInitPorts) ∧
    instance_attr (ev_heap e_packets) r "bootPageSize" = Some (VInt 128) ∧
    instance_attr (ev_heap e_ports) r "bootPageSize" = Some (VInt 128) ∧
    template_field_width (ev_heap e_ports) r "bootWriteRequestPacket" "writeData" =
      instance_attr (ev_heap e_ports) r "bootPageSize" ∧
    template_field_width (ev_heap e_ports) r "bootReadResponsePacket" "readData" =
      instance_attr (ev_heap e_ports) r "bootPageSize".

(** Class objects of [h0] are still there, unchanged, in [h]. *)
Definition keeps_classes (h0 h : Heap) : Prop :=
  (length h0 ≤ length h)%nat ∧
  ∀ r name mro dict, h0 !! r = Some (OType name mro dict) ->
                     h !! r = Some (OType name mro dict).

(** [c] keeps the class objects of [h0], whether it returns or raises, and
    what it returns has [Q]. *)
Definition class_safe {A} (h0 : Heap) (c : Py A) (Q : A -> Prop) : Prop :=
  ∀ h, keeps_classes h0 h ->
       keeps_classes h0 (snd (c h)) ∧ ∀ a, fst (c h) = Ok a -> Q a.

(** The last four statements of [bindPort]: the two table updates. *)
Definition register_binding (self : Self) (out inb : Ref) (port : Z) : Py unit :=
  let! outTable := getattr self "_outboundPortTable_" in
  let! _ := dict_update outTable (KRef out) (VInt port) in
  let! inTable := getattr self "_inboundPortTable_" in
  dict_update inTable (KInt port) (VRef inb).

(** The heap [h'] in which [bindPort], called in [h], reaches its table
    updates: the reply flag is the first new object, the two derived
    classes are the next two and carry the binding attributes. *)
Definition classes_bound (core : CoreModule) (self : Self) (port : Z)
    (oF oT iF iT : Value) (h h' : Heap) (ot it : Value) : Prop :=
  let n := length h in
  let out := S n in
  let inb := S (S n) in
  let generic_out := genericOutboundActionObjectBlockOnReply core in
  let generic_in := genericInboundActionObject core in
  (n + 3 ≤ length h')%nat ∧
  h' !! n = Some (OEvent false) ∧
  h' !! out =
    Some (OType (derived_name h ("outboundActionObjectOnPort" +:+ str port) oF)
            (out :: class_mro_of h (base_of generic_out oF))
            (binding_attrs (base_of generic_out oF) port n ot it)) ∧
  h' !! inb =
    Some (OType (derived_name h ("inboundActionObjectOnPort" +:+ str port) iF)
            (inb :: class_mro_of h (base_of generic_in iF))
            (binding_attrs iF port n ot it)) ∧
  (if not_None oT then ot = oT
   else ∃ t, ot = VRef t ∧ (n + 3 ≤ t)%nat ∧
             h' !! t = Some (OTemplate ("outboundTemplateOnPort" +:+ str port) [])) ∧
  (if not_None iT then it = iT
   else ∃ t, it = VRef t ∧ (n + 3 ≤ t)%nat ∧
             h' !! t = Some (OTemplate ("inboundTemplateOnPort" +:+ str port) [])) ∧
  (∃ d, h !! self_ref self = Some (OInstance d) ∧
        h' !! self_ref self =
          Some (OInstance
                  (<[derived_name h ("inboundActionObjectOnPort" +:+ str port) iF
                     := VRef inb]>
                     (<[derived_name h ("outboundActionObjectOnPort" +:+ str port) oF
                        := VRef out]> d)))) ∧
  (∀ r, (r < n)%nat -> r ≠ self_ref self -> h' !! r = h !! r).

(** The heap [h'] after [bindPort] has returned from [h]: as above, and the
    two tables have the new entries. *)
Definition bound (core : CoreModule) (self : Self) (port : Z)
    (oF oT iF iT : Value) (h h' : Heap)
    (outT : Ref) (outM : gmap Key Value) (inT : Ref) (inM : gmap Key Value)
    (ot it : Value) : Prop :=
  let n := length h in
  let out := S n in
  let inb := S (S n) in
  let generic_out := genericOutboundActionObjectBlockOnReply core in
  let generic_in := genericInboundActionObject core in
  (n + 3 ≤ length h')%nat ∧
  h' !! n = Some (OEvent false) ∧
  h' !! out =
    Some (OType (derived_name h ("outboundActionObjectOnPort" +:+ str port) oF)
            (out :: class_mro_of h (base_of generic_out oF))
            (binding_attrs (base_of generic_out oF) port n ot it)) ∧
  h' !! inb =
    Some (OType (derived_name h ("inboundActionObjectOnPort" +:+ str port) iF)
            (inb :: class_mro_of h (base_of generic_in iF))
            (binding_attrs iF port n ot it)) ∧
  (if not_None oT then ot = oT
   else ∃ t, ot = VRef t ∧ (n + 3 ≤ t)%nat ∧
             h' !! t = Some (OTemplate ("outboundTemplateOnPort" +:+ str port) [])) ∧
  (if not_None iT then it = iT
   else ∃ t, it = VRef t ∧ (n + 3 ≤ t)%nat ∧
             h' !! t = Some (OTemplate ("inboundTemplateOnPort" +:+ str port) [])) ∧
  h' !! inT =
    Some (ODict (<[KInt port := VRef inb]>
                   (if decide (outT = inT) then <[KRef out := VInt port]> outM
                    else inM))) ∧
  (outT ≠ inT -> h' !! outT = Some (ODict (<[KRef out := VInt port]> outM))) ∧
  (∀ r, (r < n)%nat -> r ≠ self_ref self -> r ≠ outT -> r ≠ inT -> h' !! r = h !! r).

(** ** Further observations on instances, tables and lifecycle runs *)

Definition is_instance (h : Heap) (r : Ref) : Prop :=
  match h !! r with Some (OInstance _) => True | _ => False end.

(** [r] is the object that [self._outboundPortTable_] or
    [self._inboundPortTable_] evaluates to in [h]. *)
Definition is_table_of (self : Self) (h : Heap) (r : Ref) : Prop :=
  ∃ attr, attr ∈ table_attrs ∧ fst (getattr self attr h) = Ok (VRef r).

(** Every entry of the two tables of [self] agrees with the [_port_]
    attribute of its class. *)
Definition tables_consistent (self : Self) (h : Heap) : Prop :=
  ∃ outT outM inT inM,
    initialised self h outT outM inT inM ∧
    (∀ c p, outM !! KRef c = Some (VInt p) -> class_attr h c "_port_" = Some (VInt p)) ∧
    (∀ p c, inM !! KInt p = Some (VRef c) -> class_attr h c "_port_" = Some (VInt p)).

(** The class and stage of a logged call. *)
Definition ev_call (e : Event) : string * Stage := (ev_class e, ev_stage e).

(** A value of the heap that is neither [None] nor a class: a number, a
    string, a tuple, or an existing object that is not a class. *)
Definition non_class (h : Heap) (v : Value) : Prop :=
  match v with
  | VNone => False
  | VRef r => match h !! r with
              | Some (OType _ _ _) | None => False
              | Some _ => True
              end
  | _ => True
  end.

(** The calls of the level of [baseGestaltNode], which do nothing. *)
Definition base_level_events (level : nat) (args : list Value)
    (kwargs : list (string * Value)) (h : Heap) : list Event :=
  [mkEvent level "baseGestaltNode" StInit args kwargs h;
   mkEvent level "baseGestaltNode" StInitPackets [] [] h;
   mkEvent level "baseGestaltNode" StInitPorts [] [] h;
   mkEvent level "baseGestaltNode" StOnLoad [] [] h].

(** The four stage calls of one level. *)
Definition level_stages (depth : nat) (c : NodeClass) (self : Self)
    (args : list Value) (kwargs : list (string * Value)) : Life unit :=
  let* _ := call_stage depth c StInit self args kwargs in
  let* _ := call_stage depth c StInitPackets self [] [] in
  let* _ := call_stage depth c StInitPorts self [] [] in
  call_stage depth c StOnLoad self [] [].

(** A value that is an object created after [h0]. *)
Definition created_since (h0 : Heap) (v : Value) : Prop :=
  ∃ r, v = VRef r ∧ (length h0 ≤ r)%nat.

(** The objects of [h0] other than [self] and its two tables are unchanged
    in [h], and what the table attributes of [self] evaluate to in [h] is
    what they evaluate to in [h0], or an object created since. *)
Definition framed (h0 : Heap) (self : Self) (h : Heap) : Prop :=
  (length h0 ≤ length h)%nat ∧
  (∀ r, (r < length h0)%nat -> r ≠ self_ref self -> ¬ is_table_of self h0 r ->
        h !! r = h0 !! r) ∧
  (∀ attr v, attr ∈ table_attrs -> fst (getattr self attr h) = Ok v ->
             fst (getattr self attr h0) = Ok v ∨ created_since h0 v).

(** [c] keeps the frame of [h0], whether it returns or raises, and what it
    returns has [Q]. *)
Definition frame_safe {A} (h0 : Heap) (self : Self) (c : Py A) (Q : A -> Prop) : Prop :=
  ∀ h, framed h0 self h ->
       framed h0 self (snd (c h)) ∧ ∀ a, fst (c h) = Ok a -> Q a.

(** [c] raises only out of a stage method: when it raises, the call logged
    last is the call of a stage method of the node type that raised this
    exception, and the heap is as that method left it. *)
Definition stops_at_failure {A} (mro : MRO) (self : Self) (c : Life A) : Prop :=
  ∀ h e, result_of (c h) = Raise e ->
    ∃ ev cls body,
      last (trace_of (c h)) = Some ev ∧
      mro !! ev_depth ev = Some cls ∧
      c_stage cls (ev_stage ev) = Some body ∧
      body self (ev_args ev) (ev_kwargs ev) (ev_heap ev) = (Raise e, heap_of (c h)).

(** ** The ports of [gestaltNode] *)

(** The handler attribute and the port of each [bindPort] call of
    [gestaltNode.initPorts], in the order of the calls. *)
Definition catalog : list (string * Z) :=
  [("statusRequest", 1); ("bootCommandRequest", 2); ("bootWriteRequest", 3);
   ("bootReadRequest", 4); ("urlRequest", 5); ("setAddressRequest", 6);
   ("identifyRequest", 7); ("resetRequest", 255)].

(** The attributes assigned by [gestaltNode.initPackets], in the order of
    the assignments. *)
Definition template_attrs : list string :=
  ["statusResponsePacket"; "bootCommandRequestPacket"; "bootCommandResponsePacket";
   "bootWriteRequestPacket"; "bootWriteResponsePacket"; "bootReadRequestPacket";
   "bootReadResponsePacket"; "urlResponsePacket"; "setAddressRequestPacket";
   "setAddressResponsePacket"].

(** [self.name] is a class whose [__name__] is [name], as a class defined
    under this name in the body of the node class is. *)
Definition handler_named (self : Self) (h : Heap) (name : string) : Prop :=
  ∃ r mro dict,
    getattr self name h = (Ok (VRef r), h) ∧ h !! r = Some (OType name mro dict).

(** [self.name] is a handler class bound to [port]: the outbound table
    [outT] maps it to [port], the inbound table [inT] maps [port] to an
    inbound handler class, and both classes carry the port. *)
Definition bound_as (self : Self) (h : Heap) (outT inT : Ref) (name : string) (port : Z)
  : Prop :=
  ∃ out inb outM inM,
    getattr self name h = (Ok (VRef out), h) ∧
    h !! outT = Some (ODict outM) ∧ outM !! KRef out = Some (VInt port) ∧
    h !! inT = Some (ODict inM) ∧ inM !! KInt port = Some (VRef inb) ∧
    class_attr h out "_port_" = Some (VInt port) ∧
    class_attr h inb "_port_" = Some (VInt port).

(** The state of [gestaltNode.initPorts] between two [bindPort] calls: the
    entries [finished] of the catalog are bound, the handlers of the entries
    [todo] and the templates are still to be read from [self]. *)
Definition catalog_state (core : CoreModule) (self : Self) (outT inT : Ref)
    (inM0 : gmap Key Value) (finished todo : list (string * Z)) (h : Heap) : Prop :=
  (∃ outM inM,
     initialised self h outT outM inT inM ∧
     ∀ p, (∀ name, (name, p) ∉ finished) -> inM !! KInt p = inM0 !! KInt p) ∧
  is_class h (VRef (genericInboundActionObject core)) ∧
  (∀ name port, (name, port) ∈ todo -> handler_named self h name) ∧
  (∀ name, name ∈ template_attrs -> ∃ v, getattr self name h = (Ok v, h)) ∧
  (∀ name port, (name, port) ∈ finished -> bound_as self h outT inT name port).

(** The names that a binding of [name] to [port] stores on the instance
    differ from the names [others]. *)
Definition names_apart (name : string) (port : Z) (others : list string) : Prop :=
  Forall (fun n => n ≠ name ∧ n ≠ "inboundActionObjectOnPort" +:+ str port) others.

(** A class body that defines neither [_recursiveInit_] nor a stage
    method. *)
Definition passive (c : NodeClass) : Prop :=
  c_recursiveInit c = None ∧ ∀ s, c_stage c s = None.

(** What the trace shows of a call: class, stage and arguments. *)
Definition ev_call_args (e : Event)
  : string * Stage * list Value * list (string * Value) :=
  (ev_class e, ev_stage e, ev_args e, ev_kwargs e).

(** ** Further instances of the example world *)

(** The instance dictionary after construction with [args]. *)
Definition constructed_dict (args : list Value) : gmap string Value :=
  <["_initKwargs_" := VKwargs []]> (<["_initArgs_" := VTuple args]> ∅).

(** An instance of [gestaltNode] itself (object 10). *)
Definition nodeG : Self := self_of (gestaltNode.mro core0) 10%nat.

(** [class handlersNode(gestaltNode)]: its body defines the eight handler
    classes of the catalog and no stage method. *)
Definition handlersNode : NodeClass :=
  mkClass "handlersNode" None (fun _ => None) (c_attrs exampleNode)
    (gestaltNode.mro core0).

Definition handlers_mro : MRO := mro_of handlersNode.

(** An instance of [handlersNode] (object 10), constructed without
    arguments. *)
Definition nodeH : Self := self_of handlers_mro 10%nat.
Definition heapH_constructed : Heap := snd (baseVirtualNode.__init__ nodeH [] [] heap0).

(** The heap in which [gestaltNode.initPorts] starts on [nodeH]: what
    [_init_] executes before this call is the creation of the two tables,
    then [init] and [initPackets] of [gestaltNode]. *)
Definition heapH_ports : Heap :=
  snd ((let! outTable := alloc (ODict ∅) in
        let! _ := setattr nodeH "_outboundPortTable_" (VRef outTable) in
        let! inTable := alloc (ODict ∅) in
        let! _ := setattr nodeH "_inboundPortTable_" (VRef inTable) in
        let! _ := gestaltNode.init nodeH [] [] in
        gestaltNode.initPackets nodeH [] []) heapH_constructed).


(** * Proofs *)

(** ** Lookups in an updated heap *)

Lemma heap_lookup_new (h : Heap) (o : Obj) (j : nat) :
  j = length h → (h ++ [o]) !! j = Some o.
Proof. intros ->. by apply list_lookup_middle. Qed.

Lemma heap_lookup_old (h : Heap) (o : Obj) (j : nat) :
  (j < length h)%nat → (h ++ [o]) !! j = h !! j.
Proof. apply lookup_app_l. Qed.

Lemma heap_lookup_upd (h : Heap) (i j : nat) (o : Obj) :
  j = i → (i < length h)%nat → <[i:=o]> h !! j = Some o.
Proof. intros ->. apply list_lookup_insert_eq. Qed.

Lemma heap_lookup_other (h : Heap) (i j : nat) (o : Obj) :
  i ≠ j → <[i:=o]> h !! j = h !! j.
Proof. apply list_lookup_insert_ne. Qed.

Ltac len := repeat first [rewrite length_insert | rewrite length_app]; simpl; lia.

Ltac heap_simpl :=
  repeat first
    [ rewrite heap_lookup_other by len
    | rewrite heap_lookup_upd by len
    | rewrite heap_lookup_old by len
    | rewrite heap_lookup_new by len ].

Ltac heap_done := heap_simpl; first [eassumption | reflexivity].

(** ** One step of the interpreter *)

Lemma bind_ok {A B} (c : Py A) (k : A → Py B) h a h' :
  c h = (Ok a, h') → bind c k h = k a h'.
Proof. unfold bind. by intros ->. Qed.

Lemma alloc_ok o h : alloc o h = (Ok (length h), h ++ [o]).
Proof. reflexivity. Qed.

Lemma setattr_ok self name v h d :
  h !! self_ref self = Some (OInstance d) →
  setattr self name v h = (Ok tt, <[self_ref self := OInstance (<[name:=v]> d)]> h).
Proof. unfold setattr, inst_dict. by intros ->. Qed.

Lemma getattr_ok self name v h d :
  h !! self_ref self = Some (OInstance d) → d !! name = Some v →
  getattr self name h = (Ok v, h).
Proof. unfold getattr, inst_dict. by intros -> ->. Qed.

Lemma type_setattr_ok c name v h n mro d :
  h !! c = Some (OType n mro d) →
  type_setattr c name v h = (Ok tt, <[c := OType n mro (<[name:=v]> d)]> h).
Proof. unfold type_setattr. by intros ->. Qed.

Lemma type_name_ok r h n mro d :
  h !! r = Some (OType n mro d) → type_name (VRef r) h = (Ok n, h).
Proof. unfold type_name. by intros ->. Qed.

Lemma new_type_ok tn r h n mro d :
  h !! r = Some (OType n mro d) →
  new_type tn (VRef r) h = (Ok (length h), h ++ [OType tn (length h :: mro) ∅]).
Proof. unfold new_type. by intros ->. Qed.

Lemma dict_update_ok r k v h m :
  h !! r = Some (ODict m) →
  dict_update (VRef r) k v h = (Ok tt, <[r := ODict (<[k:=v]> m)]> h).
Proof. unfold dict_update. by intros ->. Qed.

Lemma instance_lookup h r d : inst_dict h r = Some d → h !! r = Some (OInstance d).
Proof. unfold inst_dict. intros H. by repeat case_match; simplify_eq. Qed.

Lemma getattr_heap self name h : snd (getattr self name h) = h.
Proof. unfold getattr. repeat case_match; done. Qed.

Lemma getattr_same_dict self name h1 h2 d1 d2 :
  h1 !! self_ref self = Some (OInstance d1) →
  h2 !! self_ref self = Some (OInstance d2) →
  d1 !! name = d2 !! name →
  fst (getattr self name h2) = fst (getattr self name h1).
Proof.
  unfold getattr, inst_dict. intros -> -> ->. repeat case_match; done.
Qed.

(** [self.name] gives the same value in two heaps whose instance
    dictionaries agree on [name]. *)
Lemma getattr_transfer self name v h1 h2 d1 d2 :
  getattr self name h1 = (Ok v, h1) →
  h1 !! self_ref self = Some (OInstance d1) →
  h2 !! self_ref self = Some (OInstance d2) →
  d1 !! name = d2 !! name →
  getattr self name h2 = (Ok v, h2).
Proof.
  intros Hg H1 H2 Hd.
  rewrite (surjective_pairing (getattr self name h2)), getattr_heap.
  by rewrite (getattr_same_dict _ _ _ _ _ _ H1 H2 Hd), Hg.
Qed.

(** ** [addDerivedType] *)

Lemma addDerivedType_ok self base name h d bn bmro bd :
  h !! self_ref self = Some (OInstance d) →
  h !! base = Some (OType bn bmro bd) →
  let tn := default bn name in
  baseGestaltNode.addDerivedType self (VRef base) name h =
    (Ok (length h),
     <[self_ref self := OInstance (<[tn := VRef (length h)]> d)]>
       (h ++ [OType tn (length h :: bmro) ∅])).
Proof.
  intros Hs Hb tn. unfold baseGestaltNode.addDerivedType.
  assert (Hl := lookup_lt_Some _ _ _ Hs).
  erewrite (bind_ok _ _ _ tn h); last first.
  { destruct name; [done|]. by eapply type_name_ok. }
  erewrite bind_ok; last by eapply new_type_ok.
  erewrite bind_ok; last (eapply setattr_ok; heap_done).
  done.
Qed.

(** ** The blocks of [bindPort] *)

(** Deriving one handler class and recording its base. *)
Lemma derive_ok self (F R : Value) (dflt : Ref) (pre : string) h d b bn bm bd :
  h !! self_ref self = Some (OInstance d) →
  base_of dflt F = VRef b →
  h !! b = Some (OType bn bm bd) →
  let tn := if not_None F then bn else pre in
  let rec := if not_None F then F else R in
  (if not_None F then
     let! c := baseGestaltNode.addDerivedType self F None in
     let! _ := type_setattr c "_baseActionObject_" F in
     ret c
   else
     let! c := baseGestaltNode.addDerivedType self (VRef dflt) (Some pre) in
     let! _ := type_setattr c "_baseActionObject_" R in
     ret c) h =
  (Ok (length h),
   <[length h := OType tn (length h :: bm) (<["_baseActionObject_" := rec]> ∅)]>
     (<[self_ref self := OInstance (<[tn := VRef (length h)]> d)]>
        (h ++ [OType tn (length h :: bm) ∅]))).
Proof.
  intros Hs Hb Hty tn rec. subst tn rec. unfold base_of in Hb.
  assert (Hl := lookup_lt_Some _ _ _ Hs).
  destruct (not_None F); simplify_eq.
  - erewrite bind_ok; last by eapply addDerivedType_ok.
    erewrite bind_ok; last (eapply type_setattr_ok; heap_done).
    done.
  - erewrite bind_ok; last by eapply addDerivedType_ok.
    erewrite bind_ok; last (eapply type_setattr_ok; heap_done).
    done.
Qed.

Lemma derive_spec self (F R : Value) (dflt : Ref) (pre : string) h d b bn bm bd :
  h !! self_ref self = Some (OInstance d) →
  base_of dflt F = VRef b →
  h !! b = Some (OType bn bm bd) →
  let tn := if not_None F then bn else pre in
  let rec := if not_None F then F else R in
  ∃ h',
    (if not_None F then
       let! c := baseGestaltNode.addDerivedType self F None in
       let! _ := type_setattr c "_baseActionObject_" F in
       ret c
     else
       let! c := baseGestaltNode.addDerivedType self (VRef dflt) (Some pre) in
       let! _ := type_setattr c "_baseActionObject_" R in
       ret c) h = (Ok (length h), h') ∧
    length h' = S (length h) ∧
    h' !! length h =
      Some (OType tn (length h :: bm) (<["_baseActionObject_" := rec]> ∅)) ∧
    h' !! self_ref self = Some (OInstance (<[tn := VRef (length h)]> d)) ∧
    (∀ r, (r < length h)%nat → r ≠ self_ref self → h' !! r = h !! r).
Proof.
  intros Hs Hb Hty tn rec.
  assert (Hl := lookup_lt_Some _ _ _ Hs).
  eexists. split; [by eapply derive_ok|].
  split; [len|]. split; [heap_done|]. split; [heap_done|].
  intros r ??. heap_done.
Qed.

(** A supplied template, or a new empty one. *)
Lemma template_spec (T : Value) (name : string) h :
  ∃ h' t,
    (if not_None T then ret T else packets_emptyTemplate name) h = (Ok t, h') ∧
    (length h ≤ length h')%nat ∧
    (∀ r, (r < length h)%nat → h' !! r = h !! r) ∧
    (if not_None T then t = T
     else t = VRef (length h) ∧ h' !! length h = Some (OTemplate name [])).
Proof.
  destruct (not_None T); do 2 eexists; (split; [reflexivity|]).
  - eauto.
  - split; [len|]. split; [intros; heap_done|]. split; [done|heap_done].
Qed.

(** The eight assignments to the two derived classes. *)
Lemma store_params_spec {B} (out inb : Ref) (port : Z) (flag : Ref) (ot it : Value)
    (k : Py B) h no mo do_ ni mi di :
  out ≠ inb →
  h !! out = Some (OType no mo do_) →
  h !! inb = Some (OType ni mi di) →
  let ins d := <["_inboundTemplate_" := it]>
                 (<["_outboundTemplate_" := ot]>
                    (<["_inboundPacketFlag_" := VRef flag]>
                       (<["_port_" := VInt port]> d))) in
  ∃ h',
    (let! _ := type_setattr out "_port_" (VInt port) in
     let! _ := type_setattr inb "_port_" (VInt port) in
     let! _ := type_setattr out "_inboundPacketFlag_" (VRef flag) in
     let! _ := type_setattr inb "_inboundPacketFlag_" (VRef flag) in
     let! _ := type_setattr out "_outboundTemplate_" ot in
     let! _ := type_setattr inb "_outboundTemplate_" ot in
     let! _ := type_setattr out "_inboundTemplate_" it in
     let! _ := type_setattr inb "_inboundTemplate_" it in
     k) h = k h' ∧
    length h' = length h ∧
    h' !! out = Some (OType no mo (ins do_)) ∧
    h' !! inb = Some (OType ni mi (ins di)) ∧
    (∀ r, r ≠ out → r ≠ inb → h' !! r = h !! r).
Proof.
  intros Hne Ho Hi ins.
  assert (Hlo := lookup_lt_Some _ _ _ Ho).
  assert (Hli := lookup_lt_Some _ _ _ Hi).
  eexists. split.
  { do 8 (erewrite bind_ok; last (eapply type_setattr_ok; heap_done)).
    reflexivity. }
  split; [len|]. split; [heap_done|]. split; [heap_done|].
  intros r ??. heap_done.
Qed.

(** The two table updates. *)
Lemma tables_spec self (out inb : Ref) (port : Z) h d to tmo ti tmi :
  h !! self_ref self = Some (OInstance d) →
  getattr self "_outboundPortTable_" h = (Ok (VRef to), h) →
  h !! to = Some (ODict tmo) →
  getattr self "_inboundPortTable_" h = (Ok (VRef ti), h) →
  h !! ti = Some (ODict tmi) →
  ∃ h',
    register_binding self out inb port h = (Ok tt, h') ∧
    length h' = length h ∧
    h' !! ti = Some (ODict (<[KInt port := VRef inb]>
                              (if decide (to = ti) then <[KRef out := VInt port]> tmo
                               else tmi))) ∧
    (to ≠ ti → h' !! to = Some (ODict (<[KRef out := VInt port]> tmo))) ∧
    (∀ r, r ≠ to → r ≠ ti → h' !! r = h !! r).
Proof.
  intros Hs Hgo Hto Hgi Hti.
  assert (Hlo := lookup_lt_Some _ _ _ Hto).
  assert (Hli := lookup_lt_Some _ _ _ Hti).
  assert (Hls := lookup_lt_Some _ _ _ Hs).
  assert (to ≠ self_ref self) by congruence.
  assert (Hti' : <[to := ODict (<[KRef out := VInt port]> tmo)]> h !! ti =
                 Some (ODict (if decide (to = ti)
                              then <[KRef out := VInt port]> tmo else tmi))).
  { destruct (decide (to = ti)) as [->|]; heap_done. }
  eexists. split.
  { unfold register_binding.
    erewrite bind_ok; last exact Hgo.
    erewrite bind_ok; last by eapply dict_update_ok.
    erewrite bind_ok; last first.
    { eapply getattr_transfer; [exact Hgi|exact Hs| |reflexivity]. heap_done. }
    eapply dict_update_ok. exact Hti'. }
  split; [len|]. split; [heap_done|].
  split; [intros; heap_done|].
  intros r ??. heap_done.
Qed.

(** ** [bindPort], when it returns *)

Lemma bindPort_classes core self port oF oT iF iT h d bo no mo do_ bi ni mi di :
  h !! self_ref self = Some (OInstance d) →
  base_of (genericOutboundActionObjectBlockOnReply core) oF = VRef bo →
  h !! bo = Some (OType no mo do_) →
  base_of (genericInboundActionObject core) iF = VRef bi →
  h !! bi = Some (OType ni mi di) →
  let name_o := if not_None oF then no else "outboundActionObjectOnPort" +:+ str port in
  let name_i := if not_None iF then ni else "inboundActionObjectOnPort" +:+ str port in
  let n := length h in
  let out := S n in
  let inb := S (S n) in
  ∃ h' ot' it',
    baseGestaltNode.bindPort core self port oF oT iF iT h =
      register_binding self out inb port h' ∧
    (n + 3 ≤ length h')%nat ∧
    h' !! n = Some (OEvent false) ∧
    h' !! out = Some (OType name_o (out :: mo) (binding_attrs (VRef bo) port n ot' it')) ∧
    h' !! inb = Some (OType name_i (inb :: mi) (binding_attrs iF port n ot' it')) ∧
    (if not_None oT then ot' = oT
     else ∃ t, ot' = VRef t ∧ (n + 3 ≤ t)%nat ∧
               h' !! t = Some (OTemplate ("outboundTemplateOnPort" +:+ str port) [])) ∧
    (if not_None iT then it' = iT
     else ∃ t, it' = VRef t ∧ (n + 3 ≤ t)%nat ∧
               h' !! t = Some (OTemplate ("inboundTemplateOnPort" +:+ str port) [])) ∧
    h' !! self_ref self =
      Some (OInstance (<[name_i := VRef inb]> (<[name_o := VRef out]> d))) ∧
    (∀ r, (r < n)%nat → r ≠ self_ref self → h' !! r = h !! r).
Proof.
  intros Hs Hbo Hto Hbi Hti name_o name_i n out inb.
  assert (Hls := lookup_lt_Some _ _ _ Hs).
  assert (Hlo := lookup_lt_Some _ _ _ Hto).
  assert (Hli := lookup_lt_Some _ _ _ Hti).
  assert (bo ≠ self_ref self) by congruence.
  assert (bi ≠ self_ref self) by congruence.
  fold n in Hls, Hlo, Hli. subst out inb.
  (* the reply flag *)
  set (h0 := h ++ [OEvent false]).
  assert (L0 : length h0 = S n) by (subst h0; len).
  assert (F0 : ∀ r, (r < n)%nat → h0 !! r = h !! r) by (intros; subst h0; heap_done).
  assert (E0 : h0 !! n = Some (OEvent false)) by (subst h0; heap_done).
  (* the two derived classes *)
  destruct (derive_spec self oF (VRef (genericOutboundActionObjectBlockOnReply core))
              (genericOutboundActionObjectBlockOnReply core)
              ("outboundActionObjectOnPort" +:+ str port) h0 d bo no mo do_)
    as (h1 & X1 & L1 & O1 & S1 & F1); [by rewrite F0|done|by rewrite F0|].
  rewrite L0 in X1, L1, O1, S1, F1.
  assert (Hti1 : h1 !! bi = Some (OType ni mi di)) by (by rewrite F1, F0 by lia).
  destruct (derive_spec self iF iF (genericInboundActionObject core)
              ("inboundActionObjectOnPort" +:+ str port) h1 _ bi ni mi di S1 Hbi Hti1)
    as (h2 & X2 & L2 & O2 & S2 & F2).
  rewrite L1 in X2, L2, O2, S2, F2.
  (* the templates *)
  destruct (template_spec oT ("outboundTemplateOnPort" +:+ str port) h2)
    as (h3 & ot' & X3 & L3 & F3 & T3).
  destruct (template_spec iT ("inboundTemplateOnPort" +:+ str port) h3)
    as (h4 & it' & X4 & L4 & F4 & T4).
  rewrite L2 in L3, F3, T3.
  (* the stored parameters *)
  assert (O4 : h4 !! S n = Some (OType name_o (S n :: mo)
                 (<["_baseActionObject_" := VRef bo]> ∅))).
  { rewrite F4, F3, F2 by lia. rewrite O1. subst name_o. unfold base_of in Hbo.
    by destruct (not_None oF); simplify_eq. }
  assert (I4 : h4 !! S (S n) = Some (OType name_i (S (S n) :: mi)
                 (<["_baseActionObject_" := iF]> ∅))).
  { rewrite F4, F3 by lia. rewrite O2. by destruct (not_None iF). }
  assert (Hne : S n ≠ S (S n)) by lia.
  destruct (store_params_spec (S n) (S (S n)) port n ot' it'
              (register_binding self (S n) (S (S n)) port) h4 _ _ _ _ _ _ Hne O4 I4)
    as (h5 & X5 & L5 & O5 & I5 & F5).
  exists h5, ot', it'. split.
  { unfold baseGestaltNode.bindPort.
    erewrite bind_ok; last apply alloc_ok.
    erewrite bind_ok; last exact X1.
    erewrite bind_ok; last exact X2.
    erewrite bind_ok; last exact X3.
    erewrite bind_ok; last exact X4.
    exact X5. }
  split; [lia|].
  split. { by rewrite F5, F4, F3, F2, F1 by lia. }
  split; [done|]. split; [done|].
  split.
  { destruct (not_None oT); [done|]. destruct T3 as [-> T3]. eexists. split; [done|].
    assert (Hlt := lookup_lt_Some _ _ _ T3).
    split; [lia|]. by rewrite F5, F4 by lia. }
  split.
  { destruct (not_None iT); [done|]. destruct T4 as [-> T4]. eexists. split; [done|].
    split; [lia|]. by rewrite F5 by lia. }
  split. { rewrite F5, F4, F3 by lia. exact S2. }
  intros r ??. by rewrite F5, F4, F3, F2, F1, F0 by lia.
Qed.

Lemma bindPort_ok core self port oF oT iF iT h d bo no mo do_ bi ni mi di to tmo ti tmi :
  h !! self_ref self = Some (OInstance d) →
  base_of (genericOutboundActionObjectBlockOnReply core) oF = VRef bo →
  h !! bo = Some (OType no mo do_) →
  base_of (genericInboundActionObject core) iF = VRef bi →
  h !! bi = Some (OType ni mi di) →
  let name_o := if not_None oF then no else "outboundActionObjectOnPort" +:+ str port in
  let name_i := if not_None iF then ni else "inboundActionObjectOnPort" +:+ str port in
  name_o ∉ table_attrs → name_i ∉ table_attrs →
  getattr self "_outboundPortTable_" h = (Ok (VRef to), h) →
  h !! to = Some (ODict tmo) →
  getattr self "_inboundPortTable_" h = (Ok (VRef ti), h) →
  h !! ti = Some (ODict tmi) →
  let n := length h in
  let out := S n in
  let inb := S (S n) in
  ∃ h' ot' it',
    baseGestaltNode.bindPort core self port oF oT iF iT h = (Ok tt, h') ∧
    (n + 3 ≤ length h')%nat ∧
    h' !! n = Some (OEvent false) ∧
    h' !! out = Some (OType name_o (out :: mo) (binding_attrs (VRef bo) port n ot' it')) ∧
    h' !! inb = Some (OType name_i (inb :: mi) (binding_attrs iF port n ot' it')) ∧
    (if not_None oT then ot' = oT
     else ∃ t, ot' = VRef t ∧ (n + 3 ≤ t)%nat ∧
               h' !! t = Some (OTemplate ("outboundTemplateOnPort" +:+ str port) [])) ∧
    (if not_None iT then it' = iT
     else ∃ t, it' = VRef t ∧ (n + 3 ≤ t)%nat ∧
               h' !! t = Some (OTemplate ("inboundTemplateOnPort" +:+ str port) [])) ∧
    h' !! self_ref self =
      Some (OInstance (<[name_i := VRef inb]> (<[name_o := VRef out]> d))) ∧
    h' !! ti =
      Some (ODict (<[KInt port := VRef inb]>
                     (if decide (to = ti) then <[KRef out := VInt port]> tmo else tmi))) ∧
    (to ≠ ti → h' !! to = Some (ODict (<[KRef out := VInt port]> tmo))) ∧
    (∀ r, (r < n)%nat → r ≠ self_ref self → r ≠ to → r ≠ ti → h' !! r = h !! r).
Proof.
  intros Hs Hbo Hto Hbi Hti name_o name_i Hno Hni Hgo Hdo Hgi Hdi n out inb.
  assert (Hls := lookup_lt_Some _ _ _ Hs).
  assert (Hldo := lookup_lt_Some _ _ _ Hdo).
  assert (Hldi := lookup_lt_Some _ _ _ Hdi).
  assert (to ≠ self_ref self) by congruence.
  assert (ti ≠ self_ref self) by congruence.
  destruct (bindPort_classes core self port oF oT iF iT h d bo no mo do_ bi ni mi di
              Hs Hbo Hto Hbi Hti)
    as (h5 & ot' & it' & X5 & L5 & E5 & O5 & I5 & TO & TI & S5 & F5).
  fold n in Hls, Hldo, Hldi, L5, E5, O5, I5, TO, TI, S5, F5, X5.
  fold name_o name_i in O5, I5, S5.
  subst out inb.
  (* the two port tables *)
  assert (Hnames : ∀ a, a ∈ table_attrs →
            d !! a = <[name_i := VRef (S (S n))]> (<[name_o := VRef (S n)]> d) !! a).
  { intros a Ha. rewrite !lookup_insert_ne; [done| |]; intros <-; contradiction. }
  assert (Hgo5 : getattr self "_outboundPortTable_" h5 = (Ok (VRef to), h5)).
  { eapply getattr_transfer; [exact Hgo|exact Hs|exact S5|]. apply Hnames. set_solver. }
  assert (Hgi5 : getattr self "_inboundPortTable_" h5 = (Ok (VRef ti), h5)).
  { eapply getattr_transfer; [exact Hgi|exact Hs|exact S5|]. apply Hnames. set_solver. }
  assert (Hdo5 : h5 !! to = Some (ODict tmo)) by (by rewrite F5 by lia).
  assert (Hdi5 : h5 !! ti = Some (ODict tmi)) by (by rewrite F5 by lia).
  destruct (tables_spec self (S n) (S (S n)) port h5 _ to tmo ti tmi S5
              Hgo5 Hdo5 Hgi5 Hdi5) as (h6 & X6 & L6 & T6 & T6' & F6).
  exists h6, ot', it'. split; [by rewrite X5|].
  split; [lia|].
  split. { by rewrite F6 by lia. }
  split. { by rewrite F6 by lia. }
  split. { by rewrite F6 by lia. }
  split.
  { destruct (not_None oT); [done|]. destruct TO as (t & -> & Ht & Hl). exists t.
    split; [done|]. split; [done|]. by rewrite F6 by lia. }
  split.
  { destruct (not_None iT); [done|]. destruct TI as (t & -> & Ht & Hl). exists t.
    split; [done|]. split; [done|]. by rewrite F6 by lia. }
  split. { by rewrite F6 by lia. }
  split; [done|]. split; [done|].
  intros r ????. by rewrite F6, F5 by lia.
Qed.

(** The generated class names are not table attribute names: they start
    with another letter. *)
Lemma outbound_name_fresh port :
  "outboundActionObjectOnPort" +:+ str port ∉ table_attrs.
Proof.
  unfold table_attrs. intros Hin.
  repeat (apply elem_of_cons in Hin as [Hin|Hin]; [discriminate Hin|]).
  by apply elem_of_nil in Hin.
Qed.

Lemma inbound_name_fresh port :
  "inboundActionObjectOnPort" +:+ str port ∉ table_attrs.
Proof.
  unfold table_attrs. intros Hin.
  repeat (apply elem_of_cons in Hin as [Hin|Hin]; [discriminate Hin|]).
  by apply elem_of_nil in Hin.
Qed.

Lemma is_class_inv h v :
  is_class h v → ∃ r name mro dict, v = VRef r ∧ h !! r = Some (OType name mro dict).
Proof.
  unfold is_class. destruct v as [| | |r| |]; try done.
  destruct (h !! r) as [[]|] eqn:E; try done. intros _. by eexists _, _, _, _.
Qed.

(** A name that is not reserved is not the name of a table attribute. *)
Lemma reserved_table_attrs name : name ∉ reserved_names → name ∉ table_attrs.
Proof.
  intros Hn Hin. apply Hn. unfold reserved_names, table_attrs in *.
  apply elem_of_cons in Hin as [->|Hin]; [apply list_elem_of_here|].
  apply list_elem_of_singleton in Hin as ->.
  apply list_elem_of_further, list_elem_of_here.
Qed.

Lemma handler_ok_inv generic fn generated h :
  handler_ok generic fn h →
  generated ∉ table_attrs →
  ∃ b name mro dict,
    base_of generic fn = VRef b ∧ h !! b = Some (OType name mro dict) ∧
    derived_name h generated fn = (if not_None fn then name else generated) ∧
    class_mro_of h (base_of generic fn) = mro ∧
    (if not_None fn then name else generated) ∉ table_attrs.
Proof.
  intros [(b & name & mro & dict & Hb & Hc)%is_class_inv Hn] Hg.
  exists b, name, mro, dict. split; [done|]. split; [done|].
  unfold derived_name, class_mro_of, type_mro. rewrite Hb, Hc.
  unfold base_of in Hb. destruct (not_None fn) eqn:Hfn.
  - subst fn. specialize (Hn eq_refl). unfold class_name_of in *. rewrite Hc in *.
    repeat split; try done. by apply reserved_table_attrs.
  - done.
Qed.

Lemma bindPort_bound core self port oF oT iF iT h outT outM inT inM :
  initialised self h outT outM inT inM →
  handlers_ok core oF iF h →
  ∃ h' ot it,
    baseGestaltNode.bindPort core self port oF oT iF iT h = (Ok tt, h') ∧
    bound core self port oF oT iF iT h h' outT outM inT inM ot it.
Proof.
  intros ([d Hd] & [Hgo Hto] & [Hgi Hti]) [Ho Hi].
  assert (Hs : h !! self_ref self = Some (OInstance d)).
  { unfold inst_dict in Hd. by repeat case_match; simplify_eq. }
  destruct (handler_ok_inv _ _ _ _ Ho (outbound_name_fresh port))
    as (bo & no & mo & do_ & Hbo & Hco & Hno & Hmo & Hfo).
  destruct (handler_ok_inv _ _ _ _ Hi (inbound_name_fresh port))
    as (bi & ni & mi & di & Hbi & Hci & Hni & Hmi & Hfi).
  destruct (bindPort_ok core self port oF oT iF iT h d bo no mo do_ bi ni mi di
              outT outM inT inM Hs Hbo Hco Hbi Hci Hfo Hfi Hgo Hto Hgi Hti)
    as (h' & ot & it & E & L & F & O & I & TO & TI & S' & T & T' & Fr).
  exists h', ot, it. split; [done|].
  unfold bound. rewrite Hno, Hni, Hmo, Hmi, Hbo. done.
Qed.

Lemma base_inv generic fn generated h :
  is_class h (base_of generic fn) →
  ∃ b name mro dict,
    base_of generic fn = VRef b ∧ h !! b = Some (OType name mro dict) ∧
    derived_name h generated fn = (if not_None fn then name else generated) ∧
    class_mro_of h (base_of generic fn) = mro.
Proof.
  intros (b & name & mro & dict & Hb & Hc)%is_class_inv.
  exists b, name, mro, dict. split; [done|]. split; [done|].
  unfold derived_name, class_mro_of, type_mro. rewrite Hb, Hc.
  unfold base_of in Hb. destruct (not_None fn) eqn:Hfn; [|done].
  subst fn. unfold class_name_of. by rewrite Hc.
Qed.

(** With an instance and two base classes, [bindPort] gets as far as its
    table updates, whatever the state of the tables. *)
Lemma bindPort_reaches_tables core self port oF oT iF iT h d :
  h !! self_ref self = Some (OInstance d) →
  is_class h (base_of (genericOutboundActionObjectBlockOnReply core) oF) →
  is_class h (base_of (genericInboundActionObject core) iF) →
  ∃ h' ot it,
    baseGestaltNode.bindPort core self port oF oT iF iT h =
      register_binding self (S (length h)) (S (S (length h))) port h' ∧
    classes_bound core self port oF oT iF iT h h' ot it.
Proof.
  intros Hs Ho Hi.
  destruct (base_inv _ _ ("outboundActionObjectOnPort" +:+ str port) _ Ho)
    as (bo & no & mo & do_ & Hbo & Hco & Hno & Hmo).
  destruct (base_inv _ _ ("inboundActionObjectOnPort" +:+ str port) _ Hi)
    as (bi & ni & mi & di & Hbi & Hci & Hni & Hmi).
  destruct (bindPort_classes core self port oF oT iF iT h d bo no mo do_ bi ni mi di
              Hs Hbo Hco Hbi Hci)
    as (h' & ot & it & E & L & F & O & I & TO & TI & S' & Fr).
  exists h', ot, it. split; [done|].
  unfold classes_bound. rewrite Hno, Hni, Hmo, Hmi, Hbo.
  repeat (split; [done|]). split; [|done]. by exists d.
Qed.

(** The table updates change dictionaries only. *)
Lemma dict_update_keeps t k v h r o :
  h !! r = Some o → (∀ m, o ≠ ODict m) → snd (dict_update t k v h) !! r = Some o.
Proof.
  intros Hr Ho. unfold dict_update. destruct t as [| | |t| |]; simpl; try done.
  destruct (h !! t) as [[]|] eqn:Ht; simpl; try done.
  rewrite list_lookup_insert_ne; [done|]. intros ->. rewrite Hr in Ht.
  injection Ht as ->. by eapply Ho.
Qed.

Lemma register_keeps self out inb port h r o :
  h !! r = Some o → (∀ m, o ≠ ODict m) →
  snd (register_binding self out inb port h) !! r = Some o.
Proof.
  intros Hr Ho. unfold register_binding, bind.
  destruct (getattr self "_outboundPortTable_" h) as [[t|e] h1] eqn:E1;
    pose proof (getattr_heap self "_outboundPortTable_" h) as H1;
    rewrite E1 in H1; simpl in H1; subst h1; [|done].
  pose proof (dict_update_keeps t (KRef out) (VInt port) h r o Hr Ho) as H2.
  destruct (dict_update t (KRef out) (VInt port) h) as [[[]|e] h2]; simpl in H2; [|done].
  destruct (getattr self "_inboundPortTable_" h2) as [[t'|e] h3] eqn:E3;
    pose proof (getattr_heap self "_inboundPortTable_" h2) as H3;
    rewrite E3 in H3; simpl in H3; subst h3; [|done].
  by apply dict_update_keeps.
Qed.

(** ** [bindPort] and the classes that exist already *)

Lemma keeps_classes_refl h : keeps_classes h h.
Proof. by split. Qed.

Lemma safe_ret {A} h0 (a : A) (Q : A → Prop) : Q a → class_safe h0 (ret a) Q.
Proof. intros HQ h Hk. split; [done|]. by intros ? [= <-]. Qed.

Lemma safe_raise {A} h0 e (Q : A → Prop) : class_safe h0 (raise e) Q.
Proof. intros h Hk. by split. Qed.

Lemma safe_bind {A B} h0 (c : Py A) (k : A → Py B) Q Q' :
  class_safe h0 c Q → (∀ a, Q a → class_safe h0 (k a) Q') →
  class_safe h0 (bind c k) Q'.
Proof.
  intros Hc Hk h Hh. specialize (Hc h Hh). unfold bind.
  destruct (c h) as [[a|e] h']; simpl in *; [|by destruct Hc].
  destruct Hc as [Hh' HQ]. by apply Hk; [apply HQ|].
Qed.

Lemma safe_weaken {A} h0 (c : Py A) (Q Q' : A → Prop) :
  class_safe h0 c Q → (∀ a, Q a → Q' a) → class_safe h0 c Q'.
Proof. intros Hc HQ h Hh. destruct (Hc h Hh) as [? H]. split; [done|]. eauto. Qed.

Lemma keeps_classes_snoc h0 h o : keeps_classes h0 h → keeps_classes h0 (h ++ [o]).
Proof.
  intros [Hl Hh]. split; [len|]. intros r n m d Hr.
  apply lookup_app_l_Some. eauto.
Qed.

Lemma keeps_classes_update h0 h r o :
  keeps_classes h0 h →
  (∀ name mro dict, h0 !! r ≠ Some (OType name mro dict)) →
  keeps_classes h0 (<[r := o]> h).
Proof.
  intros [Hl Hh] Hr. split; [len|]. intros r' n m d Hr'.
  rewrite list_lookup_insert_ne; [eauto|]. intros ->. by eapply Hr.
Qed.

Lemma safe_alloc h0 o : class_safe h0 (alloc o) (λ r, (length h0 ≤ r)%nat).
Proof.
  intros h Hh. split; [by apply keeps_classes_snoc|].
  intros a [= <-]. by destruct Hh.
Qed.

Lemma safe_new_type h0 name base :
  class_safe h0 (new_type name base) (λ r, (length h0 ≤ r)%nat).
Proof.
  intros h Hh. unfold new_type. repeat case_match; simpl; try done.
  split; [by apply keeps_classes_snoc|]. intros a [= <-]. by destruct Hh.
Qed.

Lemma safe_type_name h0 base : class_safe h0 (type_name base) (λ _, True).
Proof. intros h Hh. unfold type_name. by repeat case_match. Qed.

Lemma safe_getattr h0 self name : class_safe h0 (getattr self name) (λ _, True).
Proof. intros h Hh. unfold getattr. by repeat case_match. Qed.

Lemma safe_setattr h0 self name v : class_safe h0 (setattr self name v) (λ _, True).
Proof.
  intros h Hh. unfold setattr, inst_dict.
  destruct (h !! self_ref self) as [[]|] eqn:Hs; simpl; try done.
  split; [|done]. apply keeps_classes_update; [done|].
  intros n m d Hc. destruct Hh as [_ Hh]. apply Hh in Hc. congruence.
Qed.

Lemma safe_dict_update h0 t k v : class_safe h0 (dict_update t k v) (λ _, True).
Proof.
  intros h Hh. unfold dict_update.
  destruct t as [| | |r| |]; simpl; try done.
  destruct (h !! r) as [[]|] eqn:Hr; simpl; try done.
  split; [|done]. apply keeps_classes_update; [done|].
  intros n m d Hc. destruct Hh as [_ Hh]. apply Hh in Hc. congruence.
Qed.

Lemma safe_type_setattr h0 cls name v :
  (length h0 ≤ cls)%nat → class_safe h0 (type_setattr cls name v) (λ _, True).
Proof.
  intros Hc h Hh. unfold type_setattr.
  destruct (h !! cls) as [[]|]; simpl; try done.
  split; [|done]. apply keeps_classes_update; [done|].
  intros n m d Hr%lookup_lt_Some. lia.
Qed.

Lemma safe_emptyTemplate h0 name : class_safe h0 (packets_emptyTemplate name) (λ _, True).
Proof.
  unfold packets_emptyTemplate.
  eapply safe_bind; [apply safe_alloc|]. intros r _. by apply safe_ret.
Qed.

Lemma safe_addDerivedType h0 self base name :
  class_safe h0 (baseGestaltNode.addDerivedType self base name)
    (λ r, (length h0 ≤ r)%nat).
Proof.
  unfold baseGestaltNode.addDerivedType.
  eapply safe_bind.
  { destruct name; [by apply (safe_ret _ _ (λ _, True))|apply safe_type_name]. }
  intros tn _. eapply safe_bind; [apply safe_new_type|].
  intros r Hr. eapply safe_bind; [apply safe_setattr|].
  intros _ _. by apply safe_ret.
Qed.

Lemma safe_derive h0 self base name recorded :
  class_safe h0
    (let! c := baseGestaltNode.addDerivedType self base name in
     let! _ := type_setattr c "_baseActionObject_" recorded in
     ret c)
    (λ r, (length h0 ≤ r)%nat).
Proof.
  eapply safe_bind; [apply safe_addDerivedType|].
  intros r Hr. eapply safe_bind; [by apply safe_type_setattr|].
  intros _ _. by apply safe_ret.
Qed.

Lemma safe_bindPort h0 core self port oF oT iF iT :
  class_safe h0 (baseGestaltNode.bindPort core self port oF oT iF iT) (λ _, True).
Proof.
  unfold baseGestaltNode.bindPort.
  eapply safe_bind; [apply safe_alloc|]. intros flag _.
  eapply safe_bind; [destruct (not_None oF); apply safe_derive|]. intros out Hout.
  eapply safe_bind; [destruct (not_None iF); apply safe_derive|]. intros inb Hinb.
  eapply safe_bind.
  { destruct (not_None oT); [by apply (safe_ret _ _ (λ _, True))|apply safe_emptyTemplate]. }
  intros ot _. eapply safe_bind.
  { destruct (not_None iT); [by apply (safe_ret _ _ (λ _, True))|apply safe_emptyTemplate]. }
  intros it _.
  do 8 (eapply safe_bind; [by apply safe_type_setattr|intros _ _]).
  eapply safe_bind; [apply safe_getattr|]. intros outTable _.
  eapply safe_bind; [apply safe_dict_update|]. intros _ _.
  eapply safe_bind; [apply safe_getattr|]. intros inTable _.
  apply safe_dict_update.
Qed.

Lemma lookup_along_agree h h' mro name :
  Forall (λ c, is_class h (VRef c)) mro →
  (∀ r n m d, h !! r = Some (OType n m d) → h' !! r = Some (OType n m d)) →
  lookup_along h' mro name = lookup_along h mro name.
Proof.
  intros Hwf Hk.
  induction Hwf as [|c mro (r & n & m & d & [= <-] & Hc)%is_class_inv _ IH]; simpl; [done|].
  unfold type_dict. rewrite (Hk _ _ _ _ Hc), Hc. by rewrite IH.
Qed.


(** ** The lifecycle: stage calls follow the schedule *)

Lemma follows_bind {A B} s1 s2 (c : Life A) (k : A → Life B) :
  follows s1 c → (∀ a, follows s2 (k a)) → follows (s1 ++ s2) (lbind c k).
Proof.
  intros Hc Hk h. specialize (Hc h). unfold lbind, trace_of, result_of in *.
  destruct (c h) as [t [[a|e] h']]; simpl in *.
  - destruct Hc as [_ Hc]. specialize (Hc I). specialize (Hk a h').
    destruct (k a h') as [t' [r h'']]; simpl in *.
    rewrite map_app, Hc. destruct Hk as [Hp He]. split.
    + by apply prefix_app.
    + intros Hok. by rewrite He.
  - destruct Hc as [Hc _]. split; [|done]. by apply prefix_app_r.
Qed.

Lemma follows_nil_bind {A B} s (c : Life A) (k : A → Life B) :
  follows [] c → (∀ a, follows s (k a)) → follows s (lbind c k).
Proof. intros. by apply (follows_bind [] s). Qed.

Lemma follows_lift {A} (c : Py A) : follows [] (lift c).
Proof. intros h. by split. Qed.

Lemma follows_lret {A} (a : A) : follows [] (lret a).
Proof. intros h. by split. Qed.

Lemma follows_lraise {A} s e : follows s (@lraise A e).
Proof. intros h. split; [apply prefix_nil|done]. Qed.

Lemma follows_call_stage depth c s self args kwargs :
  follows (if defines c s then [(depth, s)] else [])
          (call_stage depth c s self args kwargs).
Proof.
  intros h. unfold call_stage, defines, trace_of, result_of.
  destruct (c_stage c s) as [body|]; simpl; [|done].
  destruct (body self args kwargs h); done.
Qed.

Lemma level_order_stages mro depth c :
  mro !! depth = Some c →
  level_order mro depth =
    (if defines c StInit then [(depth, StInit)] else []) ++
    (if defines c StInitPackets then [(depth, StInitPackets)] else []) ++
    (if defines c StInitPorts then [(depth, StInitPorts)] else []) ++
    (if defines c StOnLoad then [(depth, StOnLoad)] else []).
Proof.
  intros Hc. unfold level_order. rewrite Hc. simpl.
  by destruct (defines c StInit), (defines c StInitPackets),
    (defines c StInitPorts), (defines c StOnLoad).
Qed.

Lemma order_from_S mro depth k :
  order_from mro depth (S k) = order_from mro (S depth) k ++ level_order mro depth.
Proof.
  unfold order_from. simpl. rewrite flat_map_app. simpl. by rewrite app_nil_r.
Qed.

Lemma in_lifecycle_order mro depth c s :
  mro !! depth = Some c → defines c s = true → (depth, s) ∈ lifecycle_order mro.
Proof.
  intros Hc Hs. apply list_elem_of_In, in_flat_map. exists depth. split.
  - apply in_rev. rewrite rev_involutive. apply in_seq.
    apply lookup_lt_Some in Hc. lia.
  - unfold level_order. rewrite Hc. apply in_map, filter_In. split; [|done].
    unfold stages. destruct s; simpl; tauto.
Qed.

Lemma lookup_recursiveInit_user user rest :
  Forall (λ c, c_recursiveInit c = None) user →
  lookup_recursiveInit (user ++ rest) = lookup_recursiveInit rest.
Proof. induction 1 as [|c user Hc _ IH]; simpl; [done|]. by rewrite Hc. Qed.

Lemma recursiveInit_step fuel mro self depth args kwargs baseClass parentClass :
  mro !! depth = Some baseClass →
  mro !! (depth + 1)%nat = Some parentClass →
  baseGestaltNode._recursiveInit_ (S fuel) mro self depth args kwargs =
    (let* _ :=
       match lookup_recursiveInit (mro_of parentClass) with
       | None => lraise (AttributeError "_recursiveInit_")
       | Some impl =>
           if keyword_clash (recursiveInit_params impl) kwargs then lraise TypeError
           else
             match impl with
             | Dummy_recursiveInit =>
                 baseVirtualNode._recursiveInit_ self (depth + 1) args kwargs
             | Gestalt_recursiveInit =>
                 baseGestaltNode._recursiveInit_ fuel mro self (depth + 1) args kwargs
             end
       end in
     let* _ := call_stage depth baseClass StInit self args kwargs in
     let* _ := call_stage depth baseClass StInitPackets self [] [] in
     let* _ := call_stage depth baseClass StInitPorts self [] [] in
     call_stage depth baseClass StOnLoad self [] []).
Proof. intros Hb Hp. simpl. by rewrite Hb, Hp. Qed.

(** ** Keywords and the parameters bound by position *)

Lemma keyword_clash_incl params params' kwargs :
  params ⊆ params' →
  keyword_clash params' kwargs = false → keyword_clash params kwargs = false.
Proof.
  intros Hs. unfold keyword_clash. induction kwargs as [|kv kwargs IH]; simpl; [done|].
  intros [H1 H2]%orb_false_iff. rewrite (IH H2), orb_false_r.
  apply bool_decide_eq_false. apply bool_decide_eq_false in H1.
  intros Hin. by apply H1, Hs.
Qed.

Lemma keywords_free_recursiveInit impl kwargs :
  keywords_free kwargs → keyword_clash (recursiveInit_params impl) kwargs = false.
Proof.
  apply keyword_clash_incl. intros x Hx. unfold reserved_keywords.
  destruct impl; simpl in Hx; apply elem_of_cons in Hx as [->|Hx];
    try apply list_elem_of_here; apply list_elem_of_singleton in Hx as ->;
    repeat first [apply list_elem_of_here|apply list_elem_of_further].
Qed.

Lemma keywords_free_self kwargs :
  keywords_free kwargs → keyword_clash ["self"] kwargs = false.
Proof.
  apply keyword_clash_incl. intros x ->%list_elem_of_singleton. apply list_elem_of_here.
Qed.

Lemma keywords_free_nil : keywords_free [].
Proof. reflexivity. Qed.

(** In an inheritance chain, the parent class resolves [_recursiveInit_]
    along the rest of the resolution order of the instance. *)
Lemma recursiveInit_step_chain fuel mro self depth args kwargs baseClass parentClass :
  single_inheritance mro →
  mro !! depth = Some baseClass →
  mro !! (depth + 1)%nat = Some parentClass →
  baseGestaltNode._recursiveInit_ (S fuel) mro self depth args kwargs =
    (let* _ :=
       match lookup_recursiveInit (drop (depth + 1) mro) with
       | None => lraise (AttributeError "_recursiveInit_")
       | Some impl =>
           if keyword_clash (recursiveInit_params impl) kwargs then lraise TypeError
           else
             match impl with
             | Dummy_recursiveInit =>
                 baseVirtualNode._recursiveInit_ self (depth + 1) args kwargs
             | Gestalt_recursiveInit =>
                 baseGestaltNode._recursiveInit_ fuel mro self (depth + 1) args kwargs
             end
       end in
     let* _ := call_stage depth baseClass StInit self args kwargs in
     let* _ := call_stage depth baseClass StInitPackets self [] [] in
     let* _ := call_stage depth baseClass StInitPorts self [] [] in
     call_stage depth baseClass StOnLoad self [] []).
Proof.
  intros Hs Hb Hp. rewrite (recursiveInit_step _ _ _ _ _ _ _ _ Hb Hp).
  by rewrite (Hs _ _ Hp).
Qed.

Lemma returns_bind {A B} (c : Life A) (k : A → Life B) :
  returns c → (∀ a, returns (k a)) → returns (lbind c k).
Proof.
  intros Hc Hk h. specialize (Hc h). unfold lbind, result_of in *.
  destruct (c h) as [t [[a|e] h']]; simpl in *; [|done].
  specialize (Hk a h'). by destruct (k a h') as [t' [r h'']].
Qed.

Lemma returns_lret {A} (a : A) : returns (lret a).
Proof. by intros h. Qed.

Lemma returns_call_stage mro self depth c s args kwargs :
  stages_total mro self → mro !! depth = Some c →
  returns (call_stage depth c s self args kwargs).
Proof.
  intros Ht Hc h. unfold call_stage, result_of.
  destruct (c_stage c s) as [body|] eqn:Hb; simpl; [|done].
  specialize (Ht depth c s body args kwargs h Hc Hb).
  by destruct (body self args kwargs h).
Qed.

Section chain.
Variable user : list NodeClass.
Hypothesis Huser : Forall (λ c, c_recursiveInit c = None) user.
Hypothesis Hchain : single_inheritance (chain_of user).

Lemma chain_length : length (chain_of user) = (length user + 3)%nat.
Proof. unfold chain_of. rewrite length_app. simpl. lia. Qed.

Lemma chain_lookup_drop depth :
  (depth ≤ length user)%nat →
  lookup_recursiveInit (drop depth (chain_of user)) = Some Gestalt_recursiveInit.
Proof.
  intros Hd. unfold chain_of. rewrite drop_app_le by done.
  rewrite lookup_recursiveInit_user; [done|]. by apply Forall_drop.
Qed.

Lemma chain_lookup_parent :
  lookup_recursiveInit (drop (length user + 1) (chain_of user)) =
  Some Dummy_recursiveInit.
Proof.
  unfold chain_of. rewrite drop_app_ge by lia.
  by replace (length user + 1 - length user)%nat with 1%nat by lia.
Qed.

Lemma chain_base :
  chain_of user !! length user = Some baseGestaltNode.cls ∧
  chain_of user !! (length user + 1)%nat = Some baseVirtualNode.cls.
Proof.
  unfold chain_of. split; [by apply list_lookup_middle|].
  rewrite lookup_app_r by lia.
  by replace (length user + 1 - length user)%nat with 1%nat by lia.
Qed.

(** With a frame left for every level below [depth], the recursion calls
    the stages of the levels from [baseGestaltNode] down to [depth]. *)
Lemma recursiveInit_follows self args kwargs k :
  ∀ fuel depth,
    (depth + k = length user)%nat → (k < fuel)%nat →
    follows (order_from (chain_of user) depth (S k))
      (baseGestaltNode._recursiveInit_ fuel (chain_of user) self depth args kwargs).
Proof.
  induction k as [|k IH]; intros fuel depth Hd Hf;
    (destruct fuel as [|fuel]; [lia|]).
  - (* the level of baseGestaltNode *)
    assert (depth = length user) as -> by lia.
    destruct chain_base as [Hb Hp].
    rewrite (recursiveInit_step_chain _ _ _ _ _ _ _ _ Hchain Hb Hp), chain_lookup_parent.
    rewrite order_from_S. unfold order_from at 1. simpl.
    rewrite (level_order_stages _ _ _ Hb).
    apply follows_nil_bind.
    { destruct (keyword_clash _ kwargs); [apply follows_lraise|apply follows_lret]. }
    intros _.
    repeat (apply follows_bind; [apply follows_call_stage|intros _]).
    apply follows_call_stage.
  - destruct (lookup_lt_is_Some_2 (chain_of user) depth) as [c Hc].
    { rewrite chain_length. lia. }
    destruct (lookup_lt_is_Some_2 (chain_of user) (depth + 1)) as [p Hp].
    { rewrite chain_length. lia. }
    rewrite (recursiveInit_step_chain _ _ _ _ _ _ _ _ Hchain Hc Hp),
      chain_lookup_drop by lia.
    rewrite order_from_S, (level_order_stages _ _ _ Hc).
    apply follows_bind.
    { destruct (keyword_clash _ kwargs); [apply follows_lraise|].
      replace (depth + 1)%nat with (S depth) by lia. apply IH; lia. }
    intros _.
    repeat (apply follows_bind; [apply follows_call_stage|intros _]).
    apply follows_call_stage.
Qed.

Lemma recursiveInit_returns self args kwargs k :
  keywords_free kwargs →
  stages_total (chain_of user) self →
  ∀ fuel depth,
    (depth + k = length user)%nat → (k < fuel)%nat →
    returns (baseGestaltNode._recursiveInit_ fuel (chain_of user) self depth args kwargs).
Proof.
  intros Hfree Ht. induction k as [|k IH]; intros fuel depth Hd Hf;
    (destruct fuel as [|fuel]; [lia|]).
  - assert (depth = length user) as -> by lia.
    destruct chain_base as [Hb Hp].
    rewrite (recursiveInit_step_chain _ _ _ _ _ _ _ _ Hchain Hb Hp), chain_lookup_parent.
    rewrite (keywords_free_recursiveInit _ _ Hfree).
    apply returns_bind; [apply returns_lret|intros _].
    repeat (apply returns_bind; [by eapply returns_call_stage|intros _]).
    by eapply returns_call_stage.
  - destruct (lookup_lt_is_Some_2 (chain_of user) depth) as [c Hc].
    { rewrite chain_length. lia. }
    destruct (lookup_lt_is_Some_2 (chain_of user) (depth + 1)) as [p Hp].
    { rewrite chain_length. lia. }
    rewrite (recursiveInit_step_chain _ _ _ _ _ _ _ _ Hchain Hc Hp),
      chain_lookup_drop by lia.
    rewrite (keywords_free_recursiveInit _ _ Hfree).
    apply returns_bind.
    { replace (depth + 1)%nat with (S depth) by lia. apply IH; lia. }
    intros _.
    repeat (apply returns_bind; [by eapply returns_call_stage|intros _]).
    by eapply returns_call_stage.
Qed.

Lemma chain_lifecycle_order :
  lifecycle_order (chain_of user) = order_from (chain_of user) 0 (S (length user)).
Proof.
  unfold lifecycle_order, order_from. rewrite chain_length.
  replace (length user + 3)%nat with (S (length user) + 2)%nat by lia.
  rewrite seq_app, rev_app_distr, flat_map_app. simpl.
  unfold level_order at 1 2. unfold chain_of.
  rewrite !lookup_app_r by lia.
  replace (S (S (length user)) - length user)%nat with 2%nat by lia.
  replace (S (length user) - length user)%nat with 1%nat by lia.
  done.
Qed.

Lemma init_follows self :
  follows (lifecycle_order (chain_of user))
    (baseGestaltNode._init_ (chain_of user) self).
Proof.
  unfold baseGestaltNode._init_.
  do 4 (apply follows_nil_bind; [apply follows_lift|intros ?]).
  pose proof (chain_lookup_drop 0 ltac:(lia)) as Hl. rewrite drop_0 in Hl. rewrite Hl.
  do 4 (apply follows_nil_bind; [apply follows_lift|intros ?]).
  destruct (keyword_clash _ _); [apply follows_lraise|].
  rewrite chain_lifecycle_order.
  apply recursiveInit_follows; [lia|]. rewrite chain_length. lia.
Qed.

End chain.

(** ** The lifecycle: what every stage call sees *)

Lemma maintains_bind {A B} P Ψ (c : Life A) (k : A → Life B) :
  maintains P Ψ c → (∀ a, maintains P Ψ (k a)) → maintains P Ψ (lbind c k).
Proof.
  intros Hc Hk h HP. specialize (Hc h HP). unfold lbind, trace_of, heap_of in *.
  destruct (c h) as [t [[a|e] h']]; simpl in *; [|done].
  destruct Hc as [Ht HP']. specialize (Hk a h' HP').
  destruct (k a h') as [t' [r h'']]; simpl in *.
  destruct Hk. split; [by apply Forall_app|done].
Qed.

Lemma maintains_lret {A} P Ψ (a : A) : maintains P Ψ (lret a).
Proof. intros h HP. by split; [apply Forall_nil|]. Qed.

Lemma maintains_lraise {A} P Ψ e : maintains P Ψ (@lraise A e).
Proof. intros h HP. by split; [apply Forall_nil|]. Qed.

Lemma maintains_lift_bind {A B} P Ψ (c : Py A) (k : A → Life B) :
  heap_neutral c → (∀ a, maintains P Ψ (k a)) → maintains P Ψ (lbind (lift c) k).
Proof.
  intros Hc Hk. apply maintains_bind; [|done].
  intros h HP. unfold lift, trace_of, heap_of. simpl. rewrite Hc.
  by split; [apply Forall_nil|].
Qed.

Section invariant.
Variables (P : Heap → Prop) (Ψ : Event → Prop).
Variables (mro : MRO) (self : Self).
Variables (args : list Value) (kwargs : list (string * Value)).
Hypothesis Hcall : ∀ depth c s body h,
  mro !! depth = Some c → c_stage c s = Some body → P h →
  Ψ (mkEvent depth (c_name c) s (stage_args s args kwargs).1
       (stage_args s args kwargs).2 h) ∧
  P (snd (body self (stage_args s args kwargs).1 (stage_args s args kwargs).2 h)).

Lemma maintains_call_stage depth c s :
  mro !! depth = Some c →
  maintains P Ψ (call_stage depth c s self (stage_args s args kwargs).1
                   (stage_args s args kwargs).2).
Proof.
  intros Hc h HP. unfold call_stage, trace_of, heap_of.
  destruct (c_stage c s) as [body|] eqn:Hb; simpl.
  - destruct (Hcall depth c s body h Hc Hb HP). split; [by apply Forall_singleton|done].
  - by split; [apply Forall_nil|].
Qed.

Lemma recursiveInit_maintains fuel :
  ∀ depth, maintains P Ψ
             (baseGestaltNode._recursiveInit_ fuel mro self depth args kwargs).
Proof.
  induction fuel as [|fuel IH]; intros depth; cbn [baseGestaltNode._recursiveInit_];
    [apply maintains_lraise|].
  destruct (mro !! depth) as [c|] eqn:Hc; [|apply maintains_lraise].
  destruct (mro !! (depth + 1)%nat) as [p|]; [|apply maintains_lraise].
  apply maintains_bind.
  { destruct (lookup_recursiveInit _) as [impl|]; [|apply maintains_lraise].
    destruct (keyword_clash _ _); [apply maintains_lraise|].
    destruct impl; [apply maintains_lret|apply IH]. }
  intros _. apply maintains_bind; [by apply (maintains_call_stage depth c StInit)|].
  intros _. apply maintains_bind; [by apply (maintains_call_stage depth c StInitPackets)|].
  intros _. apply maintains_bind; [by apply (maintains_call_stage depth c StInitPorts)|].
  intros _. by apply (maintains_call_stage depth c StOnLoad).
Qed.

End invariant.

Lemma quiet_bind {A B} (c : Life A) (k : A → Life B) :
  quiet_start c → (∀ a, quiet_start (k a)) → quiet_start (lbind c k).
Proof.
  intros Hc Hk h. specialize (Hc h). unfold lbind, trace_of, heap_of in *.
  destruct (c h) as [t [[a|e] h']]; simpl in *; [|done].
  destruct Hc as [Hc1 Hc2]. specialize (Hk a h').
  destruct (k a h') as [t' [r h'']]; simpl in *. destruct Hk as [Hk1 Hk2].
  split.
  - intros [-> ->]%app_eq_nil. trans h'; [by apply Hk1|by apply Hc1].
  - intros e He. destruct t as [|e0 t]; simpl in *.
    + rewrite <- (Hc1 eq_refl). by apply Hk2.
    + by apply Hc2.
Qed.

Lemma quiet_lret {A} (a : A) : quiet_start (lret a).
Proof. intros h. by split. Qed.

Lemma quiet_lraise {A} e : quiet_start (@lraise A e).
Proof. intros h. by split. Qed.

Lemma quiet_call_stage depth c s self args kwargs :
  quiet_start (call_stage depth c s self args kwargs).
Proof.
  intros h. unfold call_stage, trace_of, heap_of.
  destruct (c_stage c s); simpl; [|done].
  split; [done|]. by intros e [= <-].
Qed.

Lemma quiet_lift_bind {A B} (c : Py A) (k : A → Life B) :
  heap_neutral c → (∀ a, quiet_start (k a)) → quiet_start (lbind (lift c) k).
Proof.
  intros Hc Hk. apply quiet_bind; [|done].
  intros h. unfold lift, trace_of, heap_of. simpl. by rewrite Hc.
Qed.

Lemma recursiveInit_quiet mro self args kwargs fuel :
  ∀ depth, quiet_start (baseGestaltNode._recursiveInit_ fuel mro self depth args kwargs).
Proof.
  induction fuel as [|fuel IH]; intros depth; cbn [baseGestaltNode._recursiveInit_];
    [apply quiet_lraise|].
  destruct (mro !! depth) as [c|]; [|apply quiet_lraise].
  destruct (mro !! (depth + 1)%nat) as [p|]; [|apply quiet_lraise].
  apply quiet_bind.
  { destruct (lookup_recursiveInit _) as [impl|]; [|apply quiet_lraise].
    destruct (keyword_clash _ _); [apply quiet_lraise|].
    destruct impl; [apply quiet_lret|apply IH]. }
  intros _. repeat (apply quiet_bind; [apply quiet_call_stage|intros _]).
  apply quiet_call_stage.
Qed.

Lemma getattr_neutral self name : heap_neutral (getattr self name).
Proof. intros h. apply getattr_heap. Qed.

Lemma unpack_args_neutral v : heap_neutral (unpack_args v).
Proof. intros h. by destruct v. Qed.

Lemma unpack_kwargs_neutral v : heap_neutral (unpack_kwargs v).
Proof. intros h. by destruct v. Qed.

Lemma init_tail_quiet mro self : quiet_start (init_tail mro self).
Proof.
  unfold init_tail. destruct (lookup_recursiveInit mro) as [impl|]; [|apply quiet_lraise].
  apply quiet_lift_bind; [apply getattr_neutral|intros ?].
  apply quiet_lift_bind; [apply unpack_args_neutral|intros ?].
  apply quiet_lift_bind; [apply getattr_neutral|intros ?].
  apply quiet_lift_bind; [apply unpack_kwargs_neutral|intros ?].
  destruct (keyword_clash _ _); [apply quiet_lraise|].
  destruct impl; [apply quiet_lret|apply recursiveInit_quiet].
Qed.

Lemma init_tail_maintains (P : Heap → Prop) mro self :
  stages_preserve P mro self →
  maintains P (λ e, P (ev_heap e)) (init_tail mro self).
Proof.
  intros Hp. unfold init_tail.
  destruct (lookup_recursiveInit mro) as [impl|]; [|apply maintains_lraise].
  apply maintains_lift_bind; [apply getattr_neutral|intros ?].
  apply maintains_lift_bind; [apply unpack_args_neutral|intros args].
  apply maintains_lift_bind; [apply getattr_neutral|intros ?].
  apply maintains_lift_bind; [apply unpack_kwargs_neutral|intros kwargs].
  destruct (keyword_clash _ _); [apply maintains_lraise|].
  destruct impl; [apply maintains_lret|].
  apply recursiveInit_maintains. intros depth c s body h Hc Hb HP. split; [done|].
  by eapply Hp.
Qed.

(** ** Construction and the first steps of [_init_] *)

Lemma lbind_lift_ok {A B} (c : Py A) (k : A → Life B) h a h' :
  c h = (Ok a, h') → lbind (lift c) k h = k a h'.
Proof. unfold lbind, lift. intros ->. by destruct (k a h'). Qed.

Lemma lbind_ok {A B} (c : Life A) (k : A → Life B) h t a h' :
  c h = (t, (Ok a, h')) → lbind c k h = (t ++ fst (k a h'), snd (k a h')).
Proof. unfold lbind. intros ->. by destruct (k a h'). Qed.

Lemma lbind_trace_ext {A B} (c : Life A) (k : A → Life B) h :
  ∃ extra, fst (lbind c k h) = fst (c h) ++ extra.
Proof.
  unfold lbind. destruct (c h) as [t [[a|e] h']]; simpl.
  - destruct (k a h') as [t' r]. by exists t'.
  - exists []. by rewrite app_nil_r.
Qed.

Lemma call_stage_defined depth c s self args kwargs body h :
  c_stage c s = Some body →
  call_stage depth c s self args kwargs h =
    ([mkEvent depth (c_name c) s args kwargs h], body self args kwargs h).
Proof. unfold call_stage. by intros ->. Qed.

Lemma construct_ok self args kwargs h d :
  keyword_clash ["self"] kwargs = false →
  h !! self_ref self = Some (OInstance d) →
  ∃ h1,
    baseVirtualNode.__init__ self args kwargs h = (Ok tt, h1) ∧
    length h1 = length h ∧
    h1 !! self_ref self =
      Some (OInstance (<["_initKwargs_" := VKwargs kwargs]>
                         (<["_initArgs_" := VTuple args]> d))) ∧
    (∀ r, r ≠ self_ref self → h1 !! r = h !! r).
Proof.
  intros Hk Hs. assert (Hl := lookup_lt_Some _ _ _ Hs).
  eexists. split.
  { unfold baseVirtualNode.__init__. rewrite Hk.
    erewrite bind_ok; last by eapply setattr_ok.
    eapply setattr_ok. heap_done. }
  split; [len|]. split; [heap_done|]. intros r ?. heap_done.
Qed.

Lemma init_prelude mro self h d :
  h !! self_ref self = Some (OInstance d) →
  ∃ h4,
    baseGestaltNode._init_ mro self h = init_tail mro self h4 ∧
    length h4 = S (S (length h)) ∧
    h4 !! self_ref self = Some (OInstance (with_tables d (length h))) ∧
    h4 !! length h = Some (ODict ∅) ∧
    h4 !! S (length h) = Some (ODict ∅) ∧
    (∀ r, (r < length h)%nat → r ≠ self_ref self → h4 !! r = h !! r).
Proof.
  intros Hs. assert (Hl := lookup_lt_Some _ _ _ Hs).
  eexists. split.
  { unfold baseGestaltNode._init_.
    erewrite lbind_lift_ok; last apply alloc_ok.
    erewrite lbind_lift_ok; last (eapply setattr_ok; heap_done).
    erewrite lbind_lift_ok; last apply alloc_ok.
    erewrite lbind_lift_ok; last (eapply setattr_ok; heap_done).
    rewrite length_insert, length_app. simpl.
    replace (length h + 1)%nat with (S (length h)) by lia.
    reflexivity. }
  split; [len|]. split; [heap_done|]. split; [heap_done|]. split; [heap_done|].
  intros r ??. heap_done.
Qed.

Lemma init_not_instance mro self h :
  inst_dict h (self_ref self) = None → fst (baseGestaltNode._init_ mro self h) = [].
Proof.
  intros Hn. unfold baseGestaltNode._init_.
  erewrite lbind_lift_ok; last apply alloc_ok.
  unfold lbind at 1, lift at 1, setattr.
  assert (inst_dict (h ++ [ODict ∅]) (self_ref self) = None) as ->; [|done].
  unfold inst_dict in *.
  destruct (decide (self_ref self < length h)%nat).
  - by rewrite lookup_app_l.
  - destruct (decide (self_ref self = length h)) as [->|].
    + by rewrite list_lookup_middle.
    + by rewrite lookup_ge_None_2 by len.
Qed.

Lemma prelude_tables_empty mro self h d :
  h !! self_ref self = Some (OInstance d) →
  ∃ h4, baseGestaltNode._init_ mro self h = init_tail mro self h4 ∧
        tables_empty self h4.
Proof.
  intros Hs. destruct (init_prelude mro self h d Hs) as (h4 & E & L & S4 & O4 & I4 & F4).
  exists h4. split; [done|]. exists (length h), (S (length h)).
  unfold initialised, has_table, inst_dict. rewrite S4. split; [by eexists|].
  split; (split; [|done]); eapply getattr_ok; try exact S4; unfold with_tables.
  - by rewrite lookup_insert_ne, lookup_insert_eq.
  - by rewrite lookup_insert_eq.
Qed.

Lemma tables_empty_exist self h : tables_empty self h → tables_exist self h.
Proof. intros (o & i & H). by exists o, ∅, i, ∅. Qed.

(** The arguments stored by [__init__] are the ones [_init_] passes on. *)
Lemma init_replays mro self h d args kwargs :
  h !! self_ref self = Some (OInstance d) →
  d !! "_initArgs_" = Some (VTuple args) →
  d !! "_initKwargs_" = Some (VKwargs kwargs) →
  ∃ h4,
    baseGestaltNode._init_ mro self h =
      match lookup_recursiveInit mro with
      | None => lraise (AttributeError "_recursiveInit_") h4
      | Some impl =>
          if keyword_clash (recursiveInit_params impl) kwargs then lraise TypeError h4
          else
            match impl with
            | Dummy_recursiveInit => baseVirtualNode._recursiveInit_ self 0 args kwargs h4
            | Gestalt_recursiveInit =>
                baseGestaltNode._recursiveInit_ (length mro) mro self 0 args kwargs h4
            end
      end ∧
    h4 !! self_ref self = Some (OInstance (with_tables d (length h))).
Proof.
  intros Hs Ha Hk.
  destruct (init_prelude mro self h d Hs) as (h4 & E & L & S4 & O4 & I4 & F4).
  exists h4. split; [|done]. rewrite E. unfold init_tail.
  destruct (lookup_recursiveInit mro) as [impl|]; [|done].
  erewrite lbind_lift_ok; last first.
  { eapply getattr_ok; [exact S4|]. unfold with_tables. by rewrite !lookup_insert_ne. }
  erewrite lbind_lift_ok; last reflexivity.
  erewrite lbind_lift_ok; last first.
  { eapply getattr_ok; [exact S4|]. unfold with_tables. by rewrite !lookup_insert_ne. }
  erewrite lbind_lift_ok; last reflexivity.
  destruct (keyword_clash _ _); [done|]. by destruct impl.
Qed.

(** ** [gestaltNode]: the page size and the templates *)

(** [self.attr = packets.template(name, fields)], followed by [k]. *)
Lemma define_template_spec self attr name fields (k : Py unit) h d :
  h !! self_ref self = Some (OInstance d) →
  ∃ h',
    (let! t := packets_template name fields in
     let! _ := setattr self attr t in k) h = k h' ∧
    length h' = S (length h) ∧
    h' !! self_ref self = Some (OInstance (<[attr := VRef (length h)]> d)) ∧
    h' !! length h = Some (OTemplate name fields) ∧
    (∀ r, (r < length h)%nat → r ≠ self_ref self → h' !! r = h !! r).
Proof.
  intros Hs. assert (Hl := lookup_lt_Some _ _ _ Hs).
  eexists. split.
  { erewrite bind_ok; last reflexivity.
    erewrite bind_ok; last (eapply setattr_ok; heap_done).
    reflexivity. }
  split; [len|]. split; [heap_done|]. split; [heap_done|].
  intros r ??. heap_done.
Qed.

Lemma last_template_spec self attr name fields h d :
  h !! self_ref self = Some (OInstance d) →
  ∃ h',
    (let! t := packets_template name fields in setattr self attr t) h = (Ok tt, h') ∧
    length h' = S (length h) ∧
    h' !! self_ref self = Some (OInstance (<[attr := VRef (length h)]> d)) ∧
    h' !! length h = Some (OTemplate name fields) ∧
    (∀ r, (r < length h)%nat → r ≠ self_ref self → h' !! r = h !! r).
Proof.
  intros Hs. assert (Hl := lookup_lt_Some _ _ _ Hs).
  eexists. split.
  { erewrite bind_ok; last reflexivity. eapply setattr_ok; heap_done. }
  split; [len|]. split; [heap_done|]. split; [heap_done|].
  intros r ??. heap_done.
Qed.

(** [initPackets] returns whenever the page size is set, and gives the two
    data fields the width it reads from [self.bootPageSize]. *)
Lemma gestaltNode_initPackets_spec self args kwargs h d v :
  h !! self_ref self = Some (OInstance d) →
  d !! "bootPageSize" = Some v →
  ∃ h' d' tw tr,
    gestaltNode.initPackets self args kwargs h = (Ok tt, h') ∧
    h' !! self_ref self = Some (OInstance d') ∧
    d' !! "bootPageSize" = Some v ∧
    d' !! "bootWriteRequestPacket" = Some (VRef tw) ∧
    h' !! tw = Some (OTemplate "bootWriteRequest"
                       [packets_unsignedInt "commandCode" (VInt 1);
                        packets_unsignedInt "pageNumber" (VInt 2);
                        packets_pList "writeData" v]) ∧
    d' !! "bootReadResponsePacket" = Some (VRef tr) ∧
    h' !! tr = Some (OTemplate "bootReadResponse" [packets_pList "readData" v]).
Proof.
  intros Hs Hv. assert (Hl := lookup_lt_Some _ _ _ Hs).
  unfold gestaltNode.initPackets.
  edestruct define_template_spec as (h1 & -> & L1 & S1 & _ & F1); [exact Hs|].
  edestruct define_template_spec as (h2 & -> & L2 & S2 & _ & F2); [exact S1|].
  edestruct define_template_spec as (h3 & -> & L3 & S3 & _ & F3); [exact S2|].
  erewrite bind_ok; last first.
  { eapply getattr_ok; [exact S3|]. rewrite !lookup_insert_ne by done. exact Hv. }
  edestruct define_template_spec as (h4 & -> & L4 & S4 & T4 & F4); [exact S3|].
  edestruct define_template_spec as (h5 & -> & L5 & S5 & _ & F5); [exact S4|].
  edestruct define_template_spec as (h6 & -> & L6 & S6 & _ & F6); [exact S5|].
  erewrite bind_ok; last first.
  { eapply getattr_ok; [exact S6|]. rewrite !lookup_insert_ne by done. exact Hv. }
  edestruct define_template_spec as (h7 & -> & L7 & S7 & T7 & F7); [exact S6|].
  edestruct define_template_spec as (h8 & -> & L8 & S8 & _ & F8); [exact S7|].
  edestruct define_template_spec as (h9 & -> & L9 & S9 & _ & F9); [exact S8|].
  edestruct last_template_spec as (h10 & -> & L10 & S10 & _ & F10); [exact S9|].
  eexists _, _, (length h3), (length h6).
  split; [reflexivity|]. split; [exact S10|].
  split; [by rewrite !lookup_insert_ne by done|].
  split; [by rewrite !lookup_insert_ne, lookup_insert_eq by done|].
  split; [by rewrite F10, F9, F8, F7, F6, F5 by lia|].
  split; [by rewrite !lookup_insert_ne, lookup_insert_eq by done|].
  by rewrite F10, F9, F8 by lia.
Qed.

Lemma page_size_established_app r level t extra :
  page_size_established r level t → page_size_established r level (t ++ extra).
Proof.
  intros (b & e1 & e2 & e3 & a & -> & H). exists b, e1, e2, e3, (a ++ extra).
  split; [|done]. by rewrite <- !app_assoc.
Qed.

Section gestalt_chain.
Variables (core : CoreModule) (user : list NodeClass).
Hypothesis Huser : Forall (λ c, c_recursiveInit c = None) user.
Hypothesis Hchain : single_inheritance (gestalt_chain_of core user).

Lemma gchain_length : length (gestalt_chain_of core user) = (length user + 4)%nat.
Proof. unfold gestalt_chain_of. rewrite length_app. simpl. lia. Qed.

Lemma gchain_lookup depth :
  (depth ≤ S (length user))%nat →
  lookup_recursiveInit (drop depth (gestalt_chain_of core user)) =
  Some Gestalt_recursiveInit.
Proof.
  intros Hd. unfold gestalt_chain_of. destruct (decide (depth ≤ length user)%nat).
  - rewrite drop_app_le by done. rewrite lookup_recursiveInit_user; [done|].
    by apply Forall_drop.
  - rewrite drop_app_ge by lia.
    by replace (depth - length user)%nat with 1%nat by lia.
Qed.

(** The level of [gestaltNode], entered with a frame to spare for the
    level of [baseGestaltNode]. *)
Lemma gestalt_level_run self fuel h d :
  h !! self_ref self = Some (OInstance d) →
  page_size_established (self_ref self) (length user)
    (fst (baseGestaltNode._recursiveInit_ (S (S fuel)) (gestalt_chain_of core user)
            self (length user) [] [] h)).
Proof.
  intros Hs. assert (Hl := lookup_lt_Some _ _ _ Hs).
  assert (Hg : gestalt_chain_of core user !! length user = Some (gestaltNode.cls core)).
  { by apply list_lookup_middle. }
  assert (Hb : gestalt_chain_of core user !! (length user + 1)%nat =
               Some baseGestaltNode.cls).
  { unfold gestalt_chain_of. rewrite lookup_app_r by lia.
    by replace (length user + 1 - length user)%nat with 1%nat by lia. }
  assert (Hv : gestalt_chain_of core user !! (length user + 1 + 1)%nat =
               Some baseVirtualNode.cls).
  { unfold gestalt_chain_of. rewrite lookup_app_r by lia.
    by replace (length user + 1 + 1 - length user)%nat with 2%nat by lia. }
  assert (Hd : lookup_recursiveInit (drop (length user + 1 + 1) (gestalt_chain_of core user))
               = Some Dummy_recursiveInit).
  { unfold gestalt_chain_of. rewrite drop_app_ge by lia.
    by replace (length user + 1 + 1 - length user)%nat with 2%nat by lia. }
  rewrite (recursiveInit_step_chain _ _ _ _ _ _ _ _ Hchain Hg Hb), gchain_lookup by lia.
  cbn [keyword_clash existsb].
  (* the level of baseGestaltNode: four stages that do nothing *)
  erewrite lbind_ok; last first.
  { rewrite (recursiveInit_step_chain _ _ _ _ _ _ _ _ Hchain Hb Hv), Hd.
    cbn [keyword_clash existsb].
    do 4 (erewrite lbind_ok; last reflexivity).
    reflexivity. }
  (* init *)
  erewrite lbind_ok; last first.
  { erewrite call_stage_defined by reflexivity. simpl.
    erewrite setattr_ok by exact Hs. reflexivity. }
  set (h1 := <[self_ref self := OInstance (<["bootPageSize" := VInt 128]> d)]> h).
  assert (S1 : h1 !! self_ref self = Some (OInstance (<["bootPageSize" := VInt 128]> d))).
  { subst h1. heap_done. }
  (* initPackets *)
  destruct (gestaltNode_initPackets_spec self [] [] h1 _ (VInt 128) S1)
    as (h2 & d2 & tw & tr & E2 & S2 & P2 & W2 & TW2 & R2 & TR2);
    [by rewrite lookup_insert_eq|].
  erewrite lbind_ok; last first.
  { erewrite call_stage_defined by reflexivity. simpl. rewrite E2. reflexivity. }
  (* initPorts *)
  destruct (lbind_trace_ext
              (call_stage (length user) (gestaltNode.cls core) StInitPorts self [] [])
              (λ _, call_stage (length user) (gestaltNode.cls core) StOnLoad self [] [])
              h2) as (extra & ->).
  erewrite call_stage_defined by reflexivity. simpl.
  eexists [_; _; _; _], _, _, _, extra. split; [reflexivity|].
  simpl. unfold instance_attr, template_field_width, instance_attr, inst_dict.
  rewrite S1, S2, lookup_insert_eq, P2, W2, TW2, R2, TR2. done.
Qed.

Lemma derived_level_run self d h k :
  h !! self_ref self = Some (OInstance d) →
  ∀ fuel depth,
    (depth + k = length user)%nat → (k + 1 < fuel)%nat →
    page_size_established (self_ref self) (length user)
      (fst (baseGestaltNode._recursiveInit_ fuel (gestalt_chain_of core user)
              self depth [] [] h)).
Proof.
  intros Hs. induction k as [|k IH]; intros fuel depth Hd Hf.
  - assert (depth = length user) as -> by lia.
    destruct fuel as [|[|fuel]]; [lia|lia|]. by eapply gestalt_level_run.
  - destruct fuel as [|fuel]; [lia|].
    destruct (lookup_lt_is_Some_2 (gestalt_chain_of core user) depth) as [c Hc].
    { rewrite gchain_length. lia. }
    destruct (lookup_lt_is_Some_2 (gestalt_chain_of core user) (depth + 1)) as [p Hp].
    { rewrite gchain_length. lia. }
    rewrite (recursiveInit_step_chain _ _ _ _ _ _ _ _ Hchain Hc Hp),
      gchain_lookup by lia.
    cbn [keyword_clash existsb].
    match goal with |- context [lbind ?c ?k h] =>
      destruct (lbind_trace_ext c k h) as (extra & ->) end.
    apply page_size_established_app.
    replace (depth + 1)%nat with (S depth) by lia. apply IH; lia.
Qed.

End gestalt_chain.

(** ** The example world *)

Lemma example_node_type : node_type example_mro.
Proof.
  exists [exampleNode; gestaltNode.cls core0]. split; [reflexivity|].
  repeat constructor.
Defined.

(** Inheritance chains are built class by class: a class whose parents are
    the resolution order of its one base class extends a chain. *)
Lemma single_inheritance_cons c rest :
  c_parents c = rest → single_inheritance rest → single_inheritance (c :: rest).
Proof.
  intros Hc Hr [|i] c' Hi; simpl in *.
  - injection Hi as <-. unfold mro_of. by rewrite Hc.
  - by apply Hr.
Defined.

Lemma single_inheritance_nil : single_inheritance [].
Proof. intros i c Hi. by rewrite lookup_nil in Hi. Defined.

Lemma plain_chain : single_inheritance plain_mro.
Proof.
  repeat (apply single_inheritance_cons; [reflexivity|]). apply single_inheritance_nil.
Defined.

Lemma gestalt_chain core : single_inheritance (gestaltNode.mro core).
Proof. apply single_inheritance_cons; [reflexivity|]. apply plain_chain. Defined.

Lemma example_chain : single_inheritance example_mro.
Proof. apply single_inheritance_cons; [reflexivity|]. apply gestalt_chain. Defined.

(** With single inheritance, the resolution order of every class deriving
    from [baseGestaltNode] has the form of a node type, provided the classes
    in front of [baseGestaltNode] do not redefine [_recursiveInit_]. *)
Lemma chain_is_node_type mro i :
  single_inheritance mro →
  mro !! i = Some baseGestaltNode.cls →
  Forall (λ c, c_recursiveInit c = None) (take i mro) →
  node_type mro.
Proof.
  intros Hc Hb Hu. exists (take i mro). split; [|done].
  rewrite <- (take_drop i mro) at 1. f_equal. by rewrite <- (Hc _ _ Hb).
Qed.

Lemma plain_node_type : node_type plain_mro.
Proof. exists []. split; [reflexivity|]. constructor. Defined.

(** The resolution order of [mixedNode] has the form of a node type, but is
    no inheritance chain: [mixinNode] does not derive from [gestaltNode]. *)
Lemma mixed_node_type : node_type mixed_mro.
Proof.
  exists [mixedNode; mixinNode; gestaltNode.cls core0]. split; [reflexivity|].
  repeat constructor.
Defined.

Lemma mixed_no_chain : ¬ single_inheritance mixed_mro.
Proof. intros H. specialize (H 1%nat mixinNode eq_refl). discriminate H. Qed.

Lemma heapPQ_initialised : initialised nodeP heapPQ 13%nat ∅ 14%nat ∅.
Proof.
  unfold initialised, has_table.
  split; [apply (bool_decide_unpack _); vm_compute; exact I|].
  split; (split; vm_compute; reflexivity).
Defined.

Lemma heapPQ_port1_initialised :
  initialised nodeP heapPQ_port1
    13%nat {[KRef 18%nat := VInt 1]} 14%nat {[KInt 1 := VRef 19%nat]}.
Proof.
  unfold initialised, has_table.
  split; [apply (bool_decide_unpack _); vm_compute; exact I|].
  split; (split; vm_compute; reflexivity).
Defined.

Lemma heapPQ_defaults_ok : handlers_ok core0 VNone VNone heapPQ.
Proof. split; (split; [vm_compute; exact I|intros H; discriminate H]). Defined.

Lemma heapPQ_status_ok : handlers_ok core0 (VRef 2%nat) VNone heapPQ.
Proof.
  split; (split; [vm_compute; exact I|]).
  - intros _. apply (bool_decide_unpack _). vm_compute. exact I.
  - intros H. discriminate H.
Defined.

Lemma heapPQ_port1_status_ok : handlers_ok core0 (VRef 2%nat) VNone heapPQ_port1.
Proof.
  split; (split; [vm_compute; exact I|]).
  - intros _. apply (bool_decide_unpack _). vm_compute. exact I.
  - intros H. discriminate H.
Defined.

(** The example node type, run on [nodeA]: every stage is called, level by
    level, and [_init_] returns. *)
Example example_run :
  let run := baseGestaltNode._init_ example_mro nodeA heapA_constructed in
  map (λ e, (ev_depth e, ev_class e, ev_stage e)) (fst run) =
    [(2%nat, "baseGestaltNode", StInit); (2%nat, "baseGestaltNode", StInitPackets);
     (2%nat, "baseGestaltNode", StInitPorts); (2%nat, "baseGestaltNode", StOnLoad);
     (1%nat, "gestaltNode", StInit); (1%nat, "gestaltNode", StInitPackets);
     (1%nat, "gestaltNode", StInitPorts); (0%nat, "exampleNode", StOnLoad)] ∧
  fst (snd run) = Ok tt.
Proof. vm_compute. split; reflexivity. Qed.

(** Two instances bind the same handler class to two ports: each derived
    class has its own port, the shared class has none. *)
Example example_two_instances :
  let h1 := heapPQ_port1 in
  let h2 := snd (baseGestaltNode.bindPort core0 nodeQ 2 (VRef 2%nat) VNone VNone VNone h1) in
  type_getattr h2 18 "_port_" = Some (VInt 1) ∧
  type_getattr h2 23 "_port_" = Some (VInt 2) ∧
  type_getattr h2 2 "_port_" = None.
Proof. vm_compute. repeat split; reflexivity. Qed.

(** ** The lifecycle *)

Lemma level_order_NoDup mro depth : NoDup (level_order mro depth).
Proof.
  unfold level_order. destruct (mro !! depth) as [c|]; [|constructor].
  apply NoDup_fmap_2; [by intros ?? [= ->]|].
  apply NoDup_ListNoDup, List.NoDup_filter, NoDup_ListNoDup.
  by apply (bool_decide_unpack _).
Qed.

Lemma order_levels_NoDup mro levels :
  NoDup levels → NoDup (flat_map (level_order mro) levels).
Proof.
  induction 1 as [|d levels Hd Hn IH]; simpl; [constructor|].
  apply NoDup_app. split; [apply level_order_NoDup|]. split; [|done].
  intros [d' s] Hin Hin'.
  assert (d' = d) as ->.
  { unfold level_order in Hin. destruct (mro !! d); [|by inversion Hin].
    apply list_elem_of_fmap in Hin as (? & [= -> ->] & _). done. }
  apply list_elem_of_In, in_flat_map in Hin' as (d'' & Hd'' & Hin').
  assert (d'' = d) as ->.
  { unfold level_order in Hin'. destruct (mro !! d''); [|done].
    apply in_map_iff in Hin' as (? & [= -> ->] & _). done. }
  by apply Hd, list_elem_of_In.
Qed.

Lemma lifecycle_order_NoDup mro : NoDup (lifecycle_order mro).
Proof.
  apply order_levels_NoDup, NoDup_ListNoDup, List.NoDup_rev, List.seq_NoDup.
Qed.



Lemma heapA_recursiveInit_visible :
  method_visible nodeA "_recursiveInit_" heapA_constructed.
Proof. vm_compute. reflexivity. Defined.






Lemma plain_stages_preserve (P : Heap → Prop) self : stages_preserve P plain_mro self.
Proof.
  intros depth c s body args kwargs h Hc Hb HP.
  destruct depth as [|[|[|depth]]]; simpl in Hc; simplify_eq; simpl in Hb;
    try discriminate Hb.
  destruct s; simplify_eq; try done.
  unfold baseGestaltNode.init. by destruct (keyword_clash _ kwargs).
Qed.


(** C8. For [gestaltNode] and every node type deriving from it by single
    inheritance, on an instance constructed without arguments that has no
    attribute of its own named [_recursiveInit_]: [init] of [gestaltNode] is called before its
    [initPackets], which starts with the page size set to 128; when its
    [initPorts] starts the page size is still 128 and the data fields
    [writeData] of [bootWriteRequestPacket] and [readData] of
    [bootReadResponsePacket] have exactly that width. *)
Theorem page_size_before_templates
    (core : CoreModule) (user : list NodeClass) (r : Ref) (h : Heap)
    (d : gmap string Value) :
  Forall (λ c, c_recursiveInit c = None) user →
  single_inheritance (gestalt_chain_of core user) →
  h !! r = Some (OInstance d) →
  d !! "_initArgs_" = Some (VTuple []) →
  d !! "_initKwargs_" = Some (VKwargs []) →
  d !! "_recursiveInit_" = None →
  let mro := gestalt_chain_of core user in
  let self := self_of mro r in
  page_size_established r (length user) (fst (baseGestaltNode._init_ mro self h)).
Proof.
  intros Huser Hchain Hs Ha Hk _ mro self.
  destruct (init_replays mro self h d [] [] Hs Ha Hk) as (h4 & -> & S4).
  pose proof (gchain_lookup core user Huser 0 ltac:(lia)) as Hl.
  rewrite drop_0 in Hl. fold mro in Hl. rewrite Hl. cbn [keyword_clash existsb].
  eapply (derived_level_run core user Huser Hchain self _ h4 (length user) S4); [lia|].
  subst mro. rewrite gchain_length. lia.
Qed.

Lemma page_size_before_templates_witness :
  page_size_established 10 1
    (fst (baseGestaltNode._init_ (gestalt_chain_of core0 [exampleNode])
            (self_of (gestalt_chain_of core0 [exampleNode]) 10%nat) heapA_constructed)).
Proof.
  apply (page_size_before_templates core0 [exampleNode] 10%nat heapA_constructed
           (<["_initKwargs_" := VKwargs []]> (<["_initArgs_" := VTuple []]> ∅))).
  - repeat constructor.
  - exact example_chain.
  - vm_compute. reflexivity.
  - vm_compute. reflexivity.
  - vm_compute. reflexivity.
  - vm_compute. reflexivity.
Defined.

(** ** The port binder *)

Lemma class_attr_lookup h cls name mro dict attr :
  h !! cls = Some (OType name mro dict) → class_attr h cls attr = dict !! attr.
Proof. unfold class_attr, type_dict. by intros ->. Qed.

Lemma type_mro_lookup h cls name mro dict :
  h !! cls = Some (OType name mro dict) → type_mro h cls = mro.
Proof. unfold type_mro. by intros ->. Qed.


Lemma heapPQ_port1_nodeQ_derives : derives_both nodeQ 2 (VRef 2%nat) heapPQ_port1.
Proof. split; [vm_compute; reflexivity|]. vm_compute. intros H. discriminate H. Defined.



Lemma heapPQ_nodeP_visible : method_visible nodeP "addDerivedType" heapPQ.
Proof. vm_compute. reflexivity. Defined.

Lemma heapPQ_port1_nodeP_visible : method_visible nodeP "addDerivedType" heapPQ_port1.
Proof. vm_compute. reflexivity. Defined.









(** C5, at [bindPort(port = 7, outboundFunction = identifyRequest)] as in
    [gestaltNode.initPorts]: the derived outbound class records the supplied
    class, which is its base; the derived inbound class has
    [core.genericInboundActionObject] as its base but records [None]. *)
Theorem inbound_default_base_not_recorded :
  let run := baseGestaltNode.bindPort core0 nodeP 7 (VRef 8%nat) VNone VNone VNone heapPQ in
  let h' := snd run in
  fst run = Ok tt ∧
  type_mro h' 18 = [18%nat; 8%nat] ∧
  class_attr h' 18 "_baseActionObject_" = Some (VRef 8) ∧
  type_mro h' 19 = [19%nat; genericInboundActionObject core0] ∧
  class_attr h' 19 "_baseActionObject_" = Some VNone.
Proof. vm_compute. repeat split; reflexivity. Qed.

(** * Further properties of the module *)

(** ** The example world, continued *)

Ltac decide_by_computation := apply (bool_decide_unpack _); vm_compute; exact I.

Ltac by_computation := vm_compute; first [reflexivity | exact I].

Lemma heapPQ_nodeP :
  heapPQ !! 11%nat = Some (OInstance (with_tables (constructed_dict []) 13)).
Proof. by_computation. Defined.

Lemma heapPQ_consistent : tables_consistent nodeP heapPQ.
Proof.
  exists 13%nat, ∅, 14%nat, ∅. split; [exact heapPQ_initialised|].
  split; intros ? ? H; rewrite lookup_empty in H; discriminate H.
Defined.

Lemma gestalt_node_type : node_type (gestaltNode.mro core0).
Proof. exists [gestaltNode.cls core0]. split; [reflexivity|]. repeat constructor. Defined.

Lemma getattr_value self name h v :
  fst (getattr self name h) = Ok v → getattr self name h = (Ok v, h).
Proof.
  intros H. rewrite (surjective_pairing (getattr self name h)), getattr_heap. by rewrite H.
Qed.

Lemma heapH_ports_initialised : initialised nodeH heapH_ports 13%nat ∅ 14%nat ∅.
Proof.
  unfold initialised, has_table.
  split; [apply (bool_decide_unpack _); vm_compute; exact I|].
  split; (split; [apply getattr_value|]; by_computation).
Defined.

Lemma heapH_handlers name port :
  (name, port) ∈ catalog → handler_named nodeH heapH_ports name.
Proof.
  intros Hin. unfold catalog in Hin.
  repeat (apply elem_of_cons in Hin as [[= -> ->]|Hin];
          [eexists _, _, _; split; [apply getattr_value|]; by_computation|]).
  by apply elem_of_nil in Hin.
Defined.

Lemma heapH_templates name :
  name ∈ template_attrs → ∃ v, getattr nodeH name heapH_ports = (Ok v, heapH_ports).
Proof.
  intros Hin. unfold template_attrs in Hin.
  repeat (apply elem_of_cons in Hin as [->|Hin];
          [eexists; apply getattr_value; by_computation|]).
  by apply elem_of_nil in Hin.
Defined.

Lemma handlersNode_passive : Forall passive [handlersNode].
Proof. repeat constructor. Defined.

Lemma handlers_chain : single_inheritance (gestalt_chain_of core0 [handlersNode]).
Proof. apply single_inheritance_cons; [reflexivity|]. apply gestalt_chain. Defined.

(** ** [addDerivedType] *)

Lemma lookup_along_same_attrs h h' mro name :
  (∀ c, class_attr h' c name = class_attr h c name) →
  lookup_along h' mro name = lookup_along h mro name.
Proof.
  intros H. induction mro as [|c mro IH]; simpl; [done|].
  specialize (H c). unfold class_attr in H.
  destruct (type_dict h' c) as [d'|], (type_dict h c) as [d|]; rewrite ?H, ?IH; try done.
  - by rewrite <- H.
Qed.

Lemma is_instance_inv h r : is_instance h r → ∃ d, h !! r = Some (OInstance d).
Proof.
  unfold is_instance. destruct (h !! r) as [[]|] eqn:E; try done. by eexists.
Qed.

(** X1. [addDerivedType], called on an instance with a class as base,
    returns a class object that did not exist before: it is named as asked,
    or like the base when no name is given, its dictionary is empty and the
    base is its only parent.  [self.<that name>] then evaluates to the new
    class, every attribute looked up through the new class has the value it
    has through the base, and the base itself is unchanged. *)
Theorem addDerivedType_derives self base name h d bn bmro bd :
  h !! self_ref self = Some (OInstance d) →
  h !! base = Some (OType bn bmro bd) →
  let typeName := default bn name in
  let run := baseGestaltNode.addDerivedType self (VRef base) name h in
  let newType := length h in
  fst run = Ok newType ∧
  h !! newType = None ∧
  snd run !! newType = Some (OType typeName (newType :: bmro) ∅) ∧
  getattr self typeName (snd run) = (Ok (VRef newType), snd run) ∧
  (∀ attr, type_getattr (snd run) newType attr = type_getattr h base attr) ∧
  snd run !! base = Some (OType bn bmro bd).
Proof.
  intros Hs Hb typeName run newType.
  assert (Hls := lookup_lt_Some _ _ _ Hs).
  assert (Hlb := lookup_lt_Some _ _ _ Hb).
  assert (base ≠ self_ref self) by congruence.
  set (h' := <[self_ref self := OInstance (<[typeName := VRef newType]> d)]>
               (h ++ [OType typeName (newType :: bmro) ∅])).
  assert (Hrun : run = (Ok newType, h'))
    by apply (addDerivedType_ok _ _ _ _ _ _ _ _ Hs Hb).
  rewrite Hrun. cbn [fst snd].
  assert (Hnew : h' !! newType = Some (OType typeName (newType :: bmro) ∅))
    by (subst h' newType; heap_done).
  assert (Hself : h' !! self_ref self =
                  Some (OInstance (<[typeName := VRef newType]> d)))
    by (subst h' newType; heap_done).
  split; [done|]. split; [by apply lookup_ge_None_2|].
  split; [exact Hnew|]. split.
  { eapply getattr_ok; [exact Hself|]. by rewrite lookup_insert_eq. }
  split; [|subst h' newType; heap_done].
  intros attr. unfold type_getattr, type_mro. rewrite Hnew, Hb. simpl.
  unfold type_dict at 1. rewrite Hnew. rewrite lookup_empty.
  apply lookup_along_same_attrs. intros c. unfold class_attr, type_dict.
  destruct (decide (c = self_ref self)) as [->|Hcs]; [by rewrite Hs, Hself|].
  destruct (decide (c = newType)) as [->|Hcn].
  { rewrite Hnew. by rewrite (lookup_ge_None_2 h newType) by (subst newType; lia). }
  destruct (decide (c < length h)%nat).
  - subst h' newType. by heap_simpl.
  - rewrite (lookup_ge_None_2 h c) by lia. subst h' newType.
    rewrite list_lookup_insert_ne by done. rewrite lookup_ge_None_2; [done|]. len.
Qed.

Lemma addDerivedType_derives_witness :
  let run := baseGestaltNode.addDerivedType nodeP (VRef 2%nat) None heapPQ in
  fst run = Ok (length heapPQ) ∧
  getattr nodeP "statusRequest" (snd run) = (Ok (VRef (length heapPQ)), snd run) ∧
  type_getattr (snd run) (length heapPQ) "_port_" = type_getattr heapPQ 2 "_port_".
Proof.
  assert (Hb : heapPQ !! 2%nat = Some (OType "statusRequest" [2%nat] ∅))
    by by_computation.
  destruct (addDerivedType_derives nodeP 2 None heapPQ _ _ _ _ heapPQ_nodeP Hb)
    as (H1 & _ & _ & H4 & H5 & _).
  split; [exact H1|]. split; [exact H4|exact (H5 "_port_")].
Defined.

Lemma addDerivedType_non_class self base name h :
  ¬ is_class h base →
  ∃ e, baseGestaltNode.addDerivedType self base name h = (Raise e, h).
Proof.
  intros Hn. unfold baseGestaltNode.addDerivedType, bind, type_name, new_type, ret.
  unfold is_class in Hn.
  destruct name as [n|], base as [| | |r| |]; simpl;
    try (eexists; reflexivity);
    destruct (h !! r) as [[]|]; first [by destruct Hn | eexists; reflexivity].
Qed.

(** X2. [addDerivedType] called with a base that is not a class raises,
    whether or not a name is given, and changes nothing: no class is
    created and no attribute of the instance is set. *)
Theorem addDerivedType_rejects_non_class self base name h :
  ¬ is_class h base →
  ∃ e, baseGestaltNode.addDerivedType self base name h = (Raise e, h).
Proof.
  intros Hn. unfold is_class in Hn.
  destruct name as [typeName|]; unfold baseGestaltNode.addDerivedType, bind.
  - (* the name is given: [type] rejects the base *)
    unfold ret, new_type.
    destruct base as [| | |r| |]; try (eexists; reflexivity).
    destruct (h !! r) as [[]|]; first [by destruct Hn | eexists; reflexivity].
  - (* the name is read from the base *)
    unfold type_name.
    destruct base as [| | |r| |]; try (eexists; reflexivity).
    destruct (h !! r) as [[]|]; first [by destruct Hn | eexists; reflexivity].
Qed.

Lemma addDerivedType_rejects_non_class_witness :
  ∃ e, baseGestaltNode.addDerivedType nodeP (VInt 5) None heapPQ = (Raise e, heapPQ).
Proof. apply (addDerivedType_rejects_non_class nodeP (VInt 5) None heapPQ). exact id. Defined.

Lemma non_class_not_None h v : non_class h v → not_None v = true.
Proof. by destruct v. Qed.

Lemma non_class_snoc h v o : non_class h v → ¬ is_class (h ++ [o]) v.
Proof.
  unfold non_class, is_class. destruct v as [| | |r| |]; try tauto.
  destruct (h !! r) as [x|] eqn:E; [|done].
  rewrite (lookup_app_l_Some _ _ _ _ E). destruct x; tauto.
Qed.

(** ** [bindPort], when it raises *)

(** X3. [bindPort] called with an [outboundFunction] that is given and is
    not a class raises.  Only the reply flag, which nothing refers to, has
    been created: the instance, its two tables and every other object are
    as before. *)
Theorem bindPort_rejects_bad_outbound core self port oF oT iF iT h :
  non_class h oF →
  ∃ e, baseGestaltNode.bindPort core self port oF oT iF iT h =
         (Raise e, h ++ [OEvent false]).
Proof.
  intros Hn. unfold baseGestaltNode.bindPort.
  erewrite bind_ok; last apply alloc_ok.
  rewrite (non_class_not_None _ _ Hn).
  destruct (addDerivedType_non_class self oF None (h ++ [OEvent false])
              (non_class_snoc _ _ _ Hn)) as [e He].
  exists e. unfold bind at 1. unfold bind at 1. by rewrite He.
Qed.

Lemma bindPort_rejects_bad_outbound_witness :
  ∃ e, baseGestaltNode.bindPort core0 nodeP 1 (VInt 5) VNone VNone VNone heapPQ =
         (Raise e, heapPQ ++ [OEvent false]).
Proof. apply (bindPort_rejects_bad_outbound core0 nodeP 1 (VInt 5)). exact I. Defined.

Lemma non_class_stays h h' v self :
  non_class h v →
  is_instance h' (self_ref self) →
  (∀ r, (r < length h)%nat → r ≠ self_ref self → h' !! r = h !! r) →
  ¬ is_class h' v.
Proof.
  unfold non_class, is_class, is_instance. intros Hn Hs Hf.
  destruct v as [| | |r| |]; try tauto.
  destruct (decide (r = self_ref self)) as [->|Hr].
  { destruct (h' !! self_ref self) as [[]|]; tauto. }
  destruct (h !! r) as [x|] eqn:E; [|done].
  rewrite Hf, E by (by apply lookup_lt_Some in E). destruct x; tauto.
Qed.

Lemma is_instance_intro h r d : h !! r = Some (OInstance d) → is_instance h r.
Proof. unfold is_instance. by intros ->. Qed.

Lemma is_class_intro h r n m d : h !! r = Some (OType n m d) → is_class h (VRef r).
Proof. unfold is_class. by intros ->. Qed.





(** ** [_init_], when it raises *)

Lemma init_start mro self h d :
  h !! self_ref self = Some (OInstance d) →
  ∃ h4,
    baseGestaltNode._init_ mro self h = init_tail mro self h4 ∧
    h4 !! self_ref self = Some (OInstance (with_tables d (length h))) ∧
    initialised self h4 (length h) ∅ (S (length h)) ∅ ∧
    length h4 = S (S (length h)) ∧
    (∀ r, (r < length h)%nat → r ≠ self_ref self → h4 !! r = h !! r).
Proof.
  intros Hs. destruct (init_prelude mro self h d Hs) as (h4 & E & L & S4 & O4 & I4 & F4).
  exists h4. split; [done|]. split; [done|]. split; [|done].
  unfold initialised, has_table, inst_dict. rewrite S4. split; [by eexists|].
  split; (split; [|done]); eapply getattr_ok; try exact S4; unfold with_tables.
  - by rewrite lookup_insert_ne, lookup_insert_eq.
  - by rewrite lookup_insert_eq.
Qed.

Lemma node_type_recursiveInit mro :
  node_type mro → lookup_recursiveInit mro = Some Gestalt_recursiveInit.
Proof. intros (user & -> & Hu). by rewrite lookup_recursiveInit_user. Qed.

(** X6. [_init_] reads the constructor arguments that
    [baseVirtualNode.__init__] stores: on an instance of a node type that
    has no [_initArgs_], it raises [AttributeError] for it before any stage
    method is called; the two tables have been created and are empty. *)
Theorem init_needs_constructor_arguments mro self h d :
  node_type mro →
  h !! self_ref self = Some (OInstance d) →
  d !! "_initArgs_" = None →
  self_class self "_initArgs_" = None →
  let run := baseGestaltNode._init_ mro self h in
  result_of run = Raise (AttributeError "_initArgs_") ∧
  trace_of run = [] ∧
  tables_empty self (heap_of run).
Proof.
  intros Hm Hs Hd Hc run.
  destruct (init_start mro self h d Hs) as (h4 & E & S4 & T4 & _).
  assert (Hrun : run = ([], (Raise (AttributeError "_initArgs_"), h4))).
  { subst run. rewrite E. unfold init_tail. rewrite (node_type_recursiveInit _ Hm).
    unfold lbind, lift, getattr, inst_dict. rewrite S4. unfold with_tables.
    by rewrite !lookup_insert_ne, Hd, Hc. }
  rewrite Hrun. unfold result_of, trace_of, heap_of. cbn [fst snd].
  split; [done|]. split; [done|]. by eexists _, _.
Qed.

Lemma init_needs_constructor_arguments_witness :
  result_of (baseGestaltNode._init_ plain_mro nodeP heap0) =
    Raise (AttributeError "_initArgs_").
Proof.
  assert (Hs : heap0 !! self_ref nodeP = Some (OInstance ∅)) by reflexivity.
  exact (proj1 (init_needs_constructor_arguments plain_mro nodeP heap0 ∅
                  plain_node_type Hs eq_refl eq_refl)).
Defined.

Lemma init_tail_replays mro self h d args kwargs :
  lookup_recursiveInit mro = Some Gestalt_recursiveInit →
  keywords_free kwargs →
  h !! self_ref self = Some (OInstance d) →
  d !! "_initArgs_" = Some (VTuple args) →
  d !! "_initKwargs_" = Some (VKwargs kwargs) →
  init_tail mro self h =
    baseGestaltNode._recursiveInit_ (length mro) mro self 0 args kwargs h.
Proof.
  intros Hm Hfree Hs Ha Hk. unfold init_tail. rewrite Hm.
  erewrite lbind_lift_ok; last by eapply getattr_ok.
  erewrite lbind_lift_ok; last reflexivity.
  erewrite lbind_lift_ok; last by eapply getattr_ok.
  erewrite lbind_lift_ok; last reflexivity.
  by rewrite (keywords_free_recursiveInit _ _ Hfree).
Qed.

(** The level of [baseGestaltNode] in an inheritance chain: the dummy of
    [baseVirtualNode], then four stage methods that do nothing. *)
Lemma base_level_unfold mro self fuel level args kwargs h :
  single_inheritance mro →
  keywords_free kwargs →
  mro !! level = Some baseGestaltNode.cls →
  baseGestaltNode._recursiveInit_ (S fuel) mro self level args kwargs h =
    (base_level_events level args kwargs h, (Ok tt, h)).
Proof.
  intros Hchain Hfree Hb.
  assert (Hv : mro !! (level + 1)%nat = Some baseVirtualNode.cls).
  { pose proof (Hchain _ _ Hb) as Hd. apply (f_equal (λ l, l !! 1%nat)) in Hd.
    rewrite lookup_drop in Hd. simpl in Hd. by rewrite <- Hd. }
  rewrite (recursiveInit_step _ _ _ _ _ _ _ _ Hb Hv). cbn [mro_of lookup_recursiveInit].
  cbn [baseVirtualNode.cls c_recursiveInit].
  rewrite (keywords_free_recursiveInit _ _ Hfree).
  erewrite lbind_ok; last reflexivity.
  erewrite lbind_ok; last first.
  { erewrite call_stage_defined by reflexivity.
    unfold baseGestaltNode.init. rewrite (keywords_free_self _ Hfree). reflexivity. }
  do 2 (erewrite lbind_ok; last reflexivity).
  reflexivity.
Qed.


(** ** The levels of a node type deriving from [gestaltNode] *)

Section gestalt_levels.
Variables (core : CoreModule) (user : list NodeClass).
Hypothesis Huser : Forall (λ c, c_recursiveInit c = None) user.
Hypothesis Hchain : single_inheritance (gestalt_chain_of core user).

Lemma gestalt_level_unfold self fuel args kwargs h :
  keywords_free kwargs →
  baseGestaltNode._recursiveInit_ (S (S fuel)) (gestalt_chain_of core user)
    self (length user) args kwargs h =
  (base_level_events (length user + 1) args kwargs h ++
     fst (level_stages (length user) (gestaltNode.cls core) self args kwargs h),
   snd (level_stages (length user) (gestaltNode.cls core) self args kwargs h)).
Proof.
  intros Hfree.
  assert (Hg : gestalt_chain_of core user !! length user = Some (gestaltNode.cls core)).
  { by apply list_lookup_middle. }
  assert (Hb : gestalt_chain_of core user !! (length user + 1)%nat =
               Some baseGestaltNode.cls).
  { unfold gestalt_chain_of. rewrite lookup_app_r by lia.
    by replace (length user + 1 - length user)%nat with 1%nat by lia. }
  rewrite (recursiveInit_step_chain _ _ _ _ _ _ _ _ Hchain Hg Hb),
    (gchain_lookup core user Huser) by lia.
  rewrite (keywords_free_recursiveInit _ _ Hfree).
  erewrite lbind_ok; last by apply base_level_unfold.
  reflexivity.
Qed.

(** An exception raised at the level of [gestaltNode] passes through the
    levels of the classes deriving from it. *)
Lemma gestalt_level_raise self args kwargs h t e h' :
  keywords_free kwargs →
  (∀ fuel, baseGestaltNode._recursiveInit_ (S (S fuel)) (gestalt_chain_of core user)
             self (length user) args kwargs h = (t, (Raise e, h'))) →
  ∀ k fuel depth,
    (depth + k = length user)%nat → (k + 1 < fuel)%nat →
    baseGestaltNode._recursiveInit_ fuel (gestalt_chain_of core user)
      self depth args kwargs h = (t, (Raise e, h')).
Proof.
  intros Hfree Hlevel. induction k as [|k IH]; intros fuel depth Hd Hf.
  - assert (depth = length user) as -> by lia.
    destruct fuel as [|[|fuel]]; [lia|lia|]. apply Hlevel.
  - destruct fuel as [|fuel]; [lia|].
    destruct (lookup_lt_is_Some_2 (gestalt_chain_of core user) depth) as [c Hc].
    { rewrite (gchain_length core user). lia. }
    destruct (lookup_lt_is_Some_2 (gestalt_chain_of core user) (depth + 1)) as [p Hp].
    { rewrite (gchain_length core user). lia. }
    rewrite (recursiveInit_step_chain _ _ _ _ _ _ _ _ Hchain Hc Hp),
      (gchain_lookup core user Huser) by lia.
    rewrite (keywords_free_recursiveInit _ _ Hfree).
    unfold lbind at 1.
    replace (depth + 1)%nat with (S depth) by lia. by rewrite IH by lia.
Qed.

End gestalt_levels.

Lemma gchain_recursiveInit core user :
  Forall (λ c, c_recursiveInit c = None) user →
  lookup_recursiveInit (gestalt_chain_of core user) = Some Gestalt_recursiveInit.
Proof. intros Hu. by apply (gchain_lookup core user Hu 0%nat ltac:(lia)). Qed.

(** X7. [gestaltNode.init] takes no argument besides [self], and [_init_]
    passes it the constructor arguments: for every node type deriving from
    [gestaltNode] by single inheritance, [_init_] of an instance constructed
    with at least one positional or keyword argument, no keyword being
    named [self], [recursionDepth] or [_recursionDepth_], and having no
    attribute of its own named [_recursiveInit_], raises [TypeError].  The only calls made are the four stages of
    [baseGestaltNode] and this [init]: no template is defined, no port is
    bound, both tables are empty. *)
Theorem gestaltNode_takes_no_arguments core user self h d args kwargs :
  Forall (λ c, c_recursiveInit c = None) user →
  single_inheritance (gestalt_chain_of core user) →
  h !! self_ref self = Some (OInstance d) →
  d !! "_initArgs_" = Some (VTuple args) →
  d !! "_initKwargs_" = Some (VKwargs kwargs) →
  d !! "_recursiveInit_" = None →
  keywords_free kwargs →
  args ≠ [] ∨ kwargs ≠ [] →
  let run := baseGestaltNode._init_ (gestalt_chain_of core user) self h in
  result_of run = Raise TypeError ∧
  map ev_call (trace_of run) =
    [("baseGestaltNode", StInit); ("baseGestaltNode", StInitPackets);
     ("baseGestaltNode", StInitPorts); ("baseGestaltNode", StOnLoad);
     ("gestaltNode", StInit)] ∧
  tables_empty self (heap_of run).
Proof.
  intros Hu Hchain Hs Ha Hk _ Hfree Hne run.
  destruct (init_start (gestalt_chain_of core user) self h d Hs)
    as (h4 & E & S4 & T4 & _).
  assert (Hrun : run =
            (base_level_events (length user + 1) args kwargs h4 ++
               [mkEvent (length user) "gestaltNode" StInit args kwargs h4],
             (Raise TypeError, h4))).
  { subst run. rewrite E.
    rewrite (init_tail_replays _ _ _ _ args kwargs (gchain_recursiveInit _ _ Hu) Hfree S4);
      [|unfold with_tables; by rewrite !lookup_insert_ne..].
    apply (gestalt_level_raise core user Hu Hchain) with (k := length user);
      [done| |lia|rewrite (gchain_length core user); lia].
    intros fuel. rewrite (gestalt_level_unfold core user Hu Hchain) by done.
    unfold level_stages, lbind at 1. erewrite call_stage_defined by reflexivity.
    simpl. destruct args, kwargs; try done. by destruct Hne. }
  rewrite Hrun. unfold result_of, trace_of, heap_of. cbn [fst snd].
  split; [done|]. split; [done|]. by eexists _, _.
Qed.

Lemma gestaltNode_takes_no_arguments_witness :
  let h := snd (baseVirtualNode.__init__ nodeG [VInt 1] [] heap0) in
  result_of (baseGestaltNode._init_ (gestalt_chain_of core0 []) nodeG h) = Raise TypeError.
Proof.
  intros h.
  assert (Hs : h !! self_ref nodeG = Some (OInstance (constructed_dict [VInt 1])))
    by by_computation.
  refine (proj1 (gestaltNode_takes_no_arguments core0 [] nodeG h _ [VInt 1] []
                   (Forall_nil_2 _) (gestalt_chain core0) Hs _ _ _ keywords_free_nil _)).
  - by_computation.
  - by_computation.
  - by_computation.
  - left. discriminate.
Defined.

(** ** What [bindPort] leaves alone *)

Lemma outbound_table_attr : "_outboundPortTable_" ∈ table_attrs.
Proof. unfold table_attrs. apply elem_of_cons. by left. Qed.

Lemma inbound_table_attr : "_inboundPortTable_" ∈ table_attrs.
Proof. unfold table_attrs. apply elem_of_cons. right. apply elem_of_cons. by left. Qed.

Lemma framed_refl h self : framed h self h.
Proof. split; [done|]. split; [done|]. intros attr v _ Hg. by left. Qed.

Lemma fsafe_ret {A} h0 self (a : A) (Q : A → Prop) : Q a → frame_safe h0 self (ret a) Q.
Proof. intros HQ h Hk. split; [done|]. by intros ? [= <-]. Qed.

Lemma fsafe_bind {A B} h0 self (c : Py A) (k : A → Py B) Q Q' :
  frame_safe h0 self c Q → (∀ a, Q a → frame_safe h0 self (k a) Q') →
  frame_safe h0 self (bind c k) Q'.
Proof.
  intros Hc Hk h Hh. destruct (Hc h Hh) as [Hh' HQ]. unfold bind.
  destruct (c h) as [[a|e] h']; simpl in *; [|by split]. by apply Hk; [apply HQ|].
Qed.

Lemma fsafe_weaken {A} h0 self (c : Py A) (Q Q' : A → Prop) :
  frame_safe h0 self c Q → (∀ a, Q a → Q' a) → frame_safe h0 self c Q'.
Proof. intros Hc HQ h Hh. destruct (Hc h Hh) as [? H]. split; [done|]. eauto. Qed.

Lemma inst_dict_snoc h o r :
  (∀ d, o ≠ OInstance d) → inst_dict (h ++ [o]) r = inst_dict h r.
Proof.
  intros Ho. unfold inst_dict. destruct (decide (r < length h)%nat).
  - by rewrite lookup_app_l.
  - rewrite (lookup_ge_None_2 h r) by lia.
    destruct (decide (r = length h)) as [->|].
    + rewrite list_lookup_middle by done. destruct o; try done. by destruct (Ho dict).
    + by rewrite lookup_ge_None_2 by len.
Qed.

Lemma inst_dict_update h r o c :
  c ≠ r ∨ ((∀ d, o ≠ OInstance d) ∧ inst_dict h r = None) →
  inst_dict (<[c := o]> h) r = inst_dict h r.
Proof.
  unfold inst_dict. intros [Hc|[Ho Hn]].
  - by rewrite list_lookup_insert_ne.
  - destruct (decide (c = r)) as [->|]; [|by rewrite list_lookup_insert_ne].
    destruct (decide (r < length h)%nat).
    + rewrite Hn, list_lookup_insert_eq by done.
      destruct o; try done. by destruct (Ho dict).
    + by rewrite list_insert_ge by lia.
Qed.

Lemma getattr_inst_dict self name h h' :
  inst_dict h' (self_ref self) = inst_dict h (self_ref self) →
  fst (getattr self name h') = fst (getattr self name h).
Proof. unfold getattr. intros ->. by repeat case_match. Qed.

Lemma framed_snoc h0 self h o :
  (∀ d, o ≠ OInstance d) → framed h0 self h → framed h0 self (h ++ [o]).
Proof.
  intros Ho (Hl & Hf & Hg). split; [len|]. split.
  - intros r ???. rewrite lookup_app_l by lia. by apply Hf.
  - intros attr v Ha. rewrite (getattr_inst_dict _ _ h) by by apply inst_dict_snoc.
    by apply Hg.
Qed.

Lemma framed_update h0 self h c o :
  (length h0 ≤ c)%nat ∨ is_table_of self h0 c →
  (∀ d, o ≠ OInstance d) → inst_dict h c = None →
  framed h0 self h → framed h0 self (<[c := o]> h).
Proof.
  intros Hc Ho Hn (Hl & Hf & Hg). split; [len|]. split.
  - intros r ???. rewrite list_lookup_insert_ne; [by apply Hf|].
    intros ->. destruct Hc; [lia|done].
  - intros attr v Ha. rewrite (getattr_inst_dict _ _ h); [by apply Hg|].
    apply inst_dict_update. destruct (decide (c = self_ref self)) as [->|]; auto.
Qed.

Lemma fsafe_alloc h0 self o :
  (∀ d, o ≠ OInstance d) →
  frame_safe h0 self (alloc o) (λ r, (length h0 ≤ r)%nat).
Proof.
  intros Ho h Hh. split; [by apply framed_snoc|].
  intros a [= <-]. by destruct Hh.
Qed.

Lemma fsafe_new_type h0 self name base :
  frame_safe h0 self (new_type name base) (λ r, (length h0 ≤ r)%nat).
Proof.
  intros h Hh. unfold new_type. repeat case_match; try by split.
  split; [by apply framed_snoc|]. intros a [= <-]. by destruct Hh.
Qed.

Lemma fsafe_type_name h0 self base : frame_safe h0 self (type_name base) (λ _, True).
Proof. intros h Hh. unfold type_name. by repeat case_match. Qed.

Lemma fsafe_getattr h0 self attr :
  attr ∈ table_attrs →
  frame_safe h0 self (getattr self attr)
    (λ v, fst (getattr self attr h0) = Ok v ∨ created_since h0 v).
Proof.
  intros Ha h Hh. rewrite getattr_heap. split; [done|].
  intros v Hv. destruct Hh as (_ & _ & Hg). by apply Hg.
Qed.

Lemma fsafe_setattr h0 self name r :
  (length h0 ≤ r)%nat → frame_safe h0 self (setattr self name (VRef r)) (λ _, True).
Proof.
  intros Hr h Hh. unfold setattr.
  destruct (inst_dict h (self_ref self)) as [d|] eqn:Hd; [|by split].
  split; [|done]. destruct Hh as (Hl & Hf & Hg). cbn [snd]. split; [len|]. split.
  - intros r' ???. rewrite list_lookup_insert_ne by done. by apply Hf.
  - intros attr v Ha. apply instance_lookup in Hd.
    assert (Hlt := lookup_lt_Some _ _ _ Hd).
    unfold getattr at 1, inst_dict at 1. rewrite list_lookup_insert_eq by done.
    destruct (decide (attr = name)) as [->|Hne].
    + rewrite lookup_insert_eq. intros [= <-]. right. by exists r.
    + rewrite lookup_insert_ne by done. intros Hv. apply (Hg attr v Ha).
      unfold getattr, inst_dict. rewrite Hd. by repeat case_match.
Qed.

Lemma fsafe_type_setattr h0 self cls name v :
  (length h0 ≤ cls)%nat → frame_safe h0 self (type_setattr cls name v) (λ _, True).
Proof.
  intros Hc h Hh. unfold type_setattr.
  destruct (h !! cls) as [[]|] eqn:E; try by split.
  split; [|done]. apply framed_update; [by left|done| |done].
  unfold inst_dict. by rewrite E.
Qed.

Lemma fsafe_dict_update h0 self attr t k v :
  attr ∈ table_attrs →
  fst (getattr self attr h0) = Ok t ∨ created_since h0 t →
  frame_safe h0 self (dict_update t k v) (λ _, True).
Proof.
  intros Ha Ht h Hh. unfold dict_update. destruct t as [| | |r| |]; try by split.
  destruct (h !! r) as [[]|] eqn:E; try by split.
  split; [|done]. apply framed_update; [|done| |done].
  - destruct Ht as [Ht|(r' & [= <-] & ?)]; [right|by left]. by exists attr.
  - unfold inst_dict. by rewrite E.
Qed.

Lemma fsafe_emptyTemplate h0 self name :
  frame_safe h0 self (packets_emptyTemplate name) (λ _, True).
Proof.
  unfold packets_emptyTemplate. eapply fsafe_bind; [by apply fsafe_alloc|].
  intros r _. by apply fsafe_ret.
Qed.

Lemma fsafe_derive h0 self base name recorded :
  frame_safe h0 self
    (let! c := baseGestaltNode.addDerivedType self base name in
     let! _ := type_setattr c "_baseActionObject_" recorded in
     ret c)
    (λ r, (length h0 ≤ r)%nat).
Proof.
  eapply fsafe_bind.
  { unfold baseGestaltNode.addDerivedType.
    eapply fsafe_bind with (Q := λ _, True).
    { destruct name; [by apply fsafe_ret|apply fsafe_type_name]. }
    intros typeName _. eapply fsafe_bind; [apply fsafe_new_type|].
    intros newType Hn. simpl in Hn.
    eapply fsafe_bind; [by apply fsafe_setattr|].
    intros _ _. apply fsafe_ret. exact Hn. }
  intros c Hc. simpl in Hc. eapply fsafe_bind; [by apply fsafe_type_setattr|].
  intros _ _. by apply fsafe_ret.
Qed.

Lemma fsafe_bindPort h0 core self port oF oT iF iT :
  frame_safe h0 self (baseGestaltNode.bindPort core self port oF oT iF iT) (λ _, True).
Proof.
  unfold baseGestaltNode.bindPort.
  eapply fsafe_bind; [by apply fsafe_alloc|]. intros flag _.
  eapply fsafe_bind; [destruct (not_None oF); apply fsafe_derive|].
  intros out Hout. simpl in Hout.
  eapply fsafe_bind; [destruct (not_None iF); apply fsafe_derive|].
  intros inb Hinb. simpl in Hinb.
  eapply fsafe_bind with (Q := λ _, True);
    [destruct (not_None oT); [by apply fsafe_ret|apply fsafe_emptyTemplate]|].
  intros ot _.
  eapply fsafe_bind with (Q := λ _, True);
    [destruct (not_None iT); [by apply fsafe_ret|apply fsafe_emptyTemplate]|].
  intros it _.
  do 8 (eapply fsafe_bind; [by apply fsafe_type_setattr|]; intros _ _).
  eapply fsafe_bind; [apply fsafe_getattr, outbound_table_attr|].
  intros outTable HoT. simpl in HoT.
  eapply fsafe_bind;
    [exact (fsafe_dict_update _ _ _ _ _ _ outbound_table_attr HoT)|].
  intros _ _.
  eapply fsafe_bind; [apply fsafe_getattr, inbound_table_attr|].
  intros inTable HiT. simpl in HiT.
  exact (fsafe_dict_update _ _ _ _ _ _ inbound_table_attr HiT).
Qed.

(** X9. Whatever its arguments, and whether it returns or raises,
    [bindPort] leaves every existing object as it is, except the instance
    it is called on and the objects that its two table attributes evaluate
    to: other instances and their tables, every class, and the templates
    and reply flags of earlier bindings are untouched. *)
Theorem bindPort_touches_only_own_tables core self port oF oT iF iT h r o :
  h !! r = Some o →
  r ≠ self_ref self →
  ¬ is_table_of self h r →
  snd (baseGestaltNode.bindPort core self port oF oT iF iT h) !! r = Some o.
Proof.
  intros Hr Hs Ht.
  destruct (fsafe_bindPort h core self port oF oT iF iT h (framed_refl h self))
    as [(_ & Hf & _) _].
  rewrite Hf; [done| |done|done]. by apply lookup_lt_Some in Hr.
Qed.

Lemma bindPort_touches_only_own_tables_witness :
  snd (baseGestaltNode.bindPort core0 nodeQ 1 (VRef 2%nat) VNone VNone VNone heapPQ_port1)
    !! 13%nat = Some (ODict {[KRef 18%nat := VInt 1]}).
Proof.
  apply bindPort_touches_only_own_tables.
  - by_computation.
  - discriminate.
  - intros (attr & Hin & Hg). unfold table_attrs in Hin.
    apply elem_of_cons in Hin as [->|Hin].
    { vm_compute in Hg. discriminate Hg. }
    apply list_elem_of_singleton in Hin as ->.
    vm_compute in Hg. discriminate Hg.
Defined.

(** ** [bindPort], when it returns: the instance and its tables *)

Lemma bindPort_after core self port oF oT iF iT h d outT outM inT inM :
  h !! self_ref self = Some (OInstance d) →
  initialised self h outT outM inT inM →
  handlers_ok core oF iF h →
  let n := length h in
  let out := S n in
  let inb := S (S n) in
  let name_o := derived_name h ("outboundActionObjectOnPort" +:+ str port) oF in
  let name_i := derived_name h ("inboundActionObjectOnPort" +:+ str port) iF in
  let inM' := <[KInt port := VRef inb]>
                (if decide (outT = inT) then <[KRef out := VInt port]> outM else inM) in
  let outM' := if decide (outT = inT) then inM' else <[KRef out := VInt port]> outM in
  ∃ h' ot it,
    baseGestaltNode.bindPort core self port oF oT iF iT h = (Ok tt, h') ∧
    h' !! n = Some (OEvent false) ∧
    (∃ name mro, h' !! out =
       Some (OType name mro
               (binding_attrs (base_of (genericOutboundActionObjectBlockOnReply core) oF)
                  port n ot it))) ∧
    (∃ name mro, h' !! inb = Some (OType name mro (binding_attrs iF port n ot it))) ∧
    h' !! self_ref self =
      Some (OInstance (<[name_i := VRef inb]> (<[name_o := VRef out]> d))) ∧
    (name_o ∉ table_attrs) ∧ (name_i ∉ table_attrs) ∧
    initialised self h' outT outM' inT inM' ∧
    (∀ r, (r < n)%nat → r ≠ self_ref self → r ≠ outT → r ≠ inT → h' !! r = h !! r).
Proof.
  intros Hs (_ & [Hgo Hto] & [Hgi Hti]) [Ho Hi] n out inb name_o name_i inM' outM'.
  destruct (handler_ok_inv _ _ _ _ Ho (outbound_name_fresh port))
    as (bo & no & mo & do_ & Hbo & Hco & Hno & Hmo & Hfo).
  destruct (handler_ok_inv _ _ _ _ Hi (inbound_name_fresh port))
    as (bi & ni & mi & di & Hbi & Hci & Hni & Hmi & Hfi).
  destruct (bindPort_ok core self port oF oT iF iT h d bo no mo do_ bi ni mi di
              outT outM inT inM Hs Hbo Hco Hbi Hci Hfo Hfi Hgo Hto Hgi Hti)
    as (h' & ot & it & E & L & F & O & I & TO & TI & S' & T & T' & Fr).
  rewrite <- Hno in S', Hfo. rewrite <- Hni in S', Hfi.
  fold n out inb name_o name_i in S', Hfo, Hfi.
  exists h', ot, it. split; [done|]. split; [done|].
  split; [rewrite Hbo; by eexists _, _|]. split; [by eexists _, _|].
  split; [done|]. split; [done|]. split; [done|]. split; [|done].
  assert (Hnames : ∀ a, a ∈ table_attrs →
            d !! a = <[name_i := VRef inb]> (<[name_o := VRef out]> d) !! a).
  { intros a Ha. rewrite !lookup_insert_ne; [done| |]; intros <-; contradiction. }
  split. { unfold inst_dict. rewrite S'. by eexists. }
  split; split.
  - eapply getattr_transfer; [exact Hgo|exact Hs|exact S'|]. apply Hnames, outbound_table_attr.
  - subst outM' inM'. destruct (decide (outT = inT)) as [->|Hne]; [exact T|by apply T'].
  - eapply getattr_transfer; [exact Hgi|exact Hs|exact S'|]. apply Hnames, inbound_table_attr.
  - exact T.
Qed.

Lemma initialised_instance self h outT outM inT inM :
  initialised self h outT outM inT inM → ∃ d, h !! self_ref self = Some (OInstance d).
Proof. intros ([d Hd] & _). exists d. by apply instance_lookup. Qed.

Lemma class_attr_is_class h c name v :
  class_attr h c name = Some v → ∃ n m d, h !! c = Some (OType n m d).
Proof.
  unfold class_attr, type_dict. destruct (h !! c) as [[]|]; try done. by eexists _, _, _.
Qed.





(** ** Successive bindings *)

Lemma bindPort_derived core self port oF oT iF iT h :
  is_instance h (self_ref self) →
  is_class h (base_of (genericOutboundActionObjectBlockOnReply core) oF) →
  is_class h (base_of (genericInboundActionObject core) iF) →
  let h' := snd (baseGestaltNode.bindPort core self port oF oT iF iT h) in
  let n := length h in
  (n + 3 ≤ length h')%nat ∧
  h' !! n = Some (OEvent false) ∧
  (∃ ot it,
     (∃ name mro base, h' !! S n = Some (OType name mro (binding_attrs base port n ot it))) ∧
     (∃ name mro base,
        h' !! S (S n) = Some (OType name mro (binding_attrs base port n ot it)))) ∧
  (∀ r o, h !! r = Some o → r ≠ self_ref self → (∀ m, o ≠ ODict m) →
          h' !! r = Some o).
Proof.
  intros [d Hs]%is_instance_inv Ho Hi h' n.
  destruct (bindPort_reaches_tables core self port oF oT iF iT h d Hs Ho Hi)
    as (h5 & ot & it & E & L & F & O & I & _ & _ & _ & Fr).
  subst h' n. rewrite E.
  assert (I' := register_keeps self (S (length h)) (S (S (length h))) port h5 _ _ I
                  ltac:(done)).
  split. { apply lookup_lt_Some in I'. lia. }
  split; [eapply register_keeps; [exact F|done]|].
  split.
  { exists ot, it. split; eexists _, _, _; [|exact I'].
    eapply register_keeps; [exact O|done]. }
  intros r o Hr Hne Hd. eapply register_keeps; [|exact Hd].
  rewrite Fr; [done| |done]. by apply lookup_lt_Some in Hr.
Qed.



(** ** A stage method that raises *)

Lemma stops_bind {A B} mro self (c : Life A) (k : A → Life B) :
  stops_at_failure mro self c → (∀ a, stops_at_failure mro self (k a)) →
  stops_at_failure mro self (lbind c k).
Proof.
  intros Hc Hk h e. unfold lbind, result_of, trace_of, heap_of.
  specialize (Hc h). unfold result_of, trace_of, heap_of in Hc.
  destruct (c h) as [t [[a|e'] h']]; simpl in *.
  - specialize (Hk a h'). unfold result_of, trace_of, heap_of in Hk.
    destruct (k a h') as [t' [r h'']]; simpl in *. intros Hr.
    destruct (Hk e Hr) as (ev & cls & body & Hl & ?). exists ev, cls, body.
    split; [|done]. rewrite last_app. by rewrite Hl.
  - intros [= <-]. by apply Hc.
Qed.

Lemma stops_lret {A} mro self (a : A) : stops_at_failure mro self (lret a).
Proof. by intros h e. Qed.

Lemma stops_call_stage mro self depth c s args kwargs :
  mro !! depth = Some c →
  stops_at_failure mro self (call_stage depth c s self args kwargs).
Proof.
  intros Hc h e. unfold call_stage, result_of, trace_of, heap_of.
  destruct (c_stage c s) as [body|] eqn:Hb; simpl; [|done].
  intros Hr. eexists _, c, body. split; [reflexivity|]. simpl.
  split; [done|]. split; [done|].
  rewrite (surjective_pairing (body self args kwargs h)). by rewrite Hr.
Qed.

Lemma recursiveInit_stops user self args kwargs k :
  Forall (λ c, c_recursiveInit c = None) user →
  single_inheritance (chain_of user) →
  keywords_free kwargs →
  ∀ fuel depth,
    (depth + k = length user)%nat → (k < fuel)%nat →
    stops_at_failure (chain_of user) self
      (baseGestaltNode._recursiveInit_ fuel (chain_of user) self depth args kwargs).
Proof.
  intros Hu Hchain Hfree. induction k as [|k IH]; intros fuel depth Hd Hf;
    (destruct fuel as [|fuel]; [lia|]).
  - assert (depth = length user) as -> by lia.
    destruct (chain_base user) as [Hb Hp].
    rewrite (recursiveInit_step_chain _ _ _ _ _ _ _ _ Hchain Hb Hp), chain_lookup_parent.
    rewrite (keywords_free_recursiveInit _ _ Hfree).
    apply stops_bind; [apply stops_lret|intros _].
    repeat (apply stops_bind; [by apply stops_call_stage|intros _]).
    by apply stops_call_stage.
  - destruct (lookup_lt_is_Some_2 (chain_of user) depth) as [c Hc].
    { rewrite chain_length. lia. }
    destruct (lookup_lt_is_Some_2 (chain_of user) (depth + 1)) as [p Hp].
    { rewrite chain_length. lia. }
    rewrite (recursiveInit_step_chain _ _ _ _ _ _ _ _ Hchain Hc Hp),
      chain_lookup_drop by (done || lia).
    rewrite (keywords_free_recursiveInit _ _ Hfree).
    apply stops_bind.
    { replace (depth + 1)%nat with (S depth) by lia. apply IH; lia. }
    intros _.
    repeat (apply stops_bind; [by apply stops_call_stage|intros _]).
    by apply stops_call_stage.
Qed.

(** X11. For a node type built by single inheritance, constructor
    keywords none of which is named [self], [recursionDepth] or
    [_recursionDepth_], and an instance that has no attribute of its own
    named [_recursiveInit_], [_init_] raises only out of a stage method, and
    stops there: when [_init_] raises on a constructed instance, the last
    stage call made is a call of a stage method of the node type that
    raised this very exception, and the heap is as that method left it (no
    later stage runs, nothing is undone). *)
Theorem failing_stage_ends_lifecycle mro self h d args kwargs e :
  node_type mro →
  single_inheritance mro →
  h !! self_ref self = Some (OInstance d) →
  d !! "_initArgs_" = Some (VTuple args) →
  d !! "_initKwargs_" = Some (VKwargs kwargs) →
  d !! "_recursiveInit_" = None →
  keywords_free kwargs →
  let run := baseGestaltNode._init_ mro self h in
  result_of run = Raise e →
  ∃ ev cls body,
    last (trace_of run) = Some ev ∧
    mro !! ev_depth ev = Some cls ∧
    c_stage cls (ev_stage ev) = Some body ∧
    body self (ev_args ev) (ev_kwargs ev) (ev_heap ev) = (Raise e, heap_of run).
Proof.
  intros Hm Hchain Hs Ha Hk _ Hfree run.
  destruct (init_start mro self h d Hs) as (h4 & E & S4 & _).
  subst run. rewrite E.
  rewrite (init_tail_replays _ _ _ _ args kwargs (node_type_recursiveInit _ Hm) Hfree S4);
    [|unfold with_tables; by rewrite !lookup_insert_ne..].
  destruct Hm as (user & -> & Hu). fold (chain_of user) in *.
  apply (recursiveInit_stops user self args kwargs (length user) Hu Hchain Hfree); [lia|].
  rewrite chain_length. lia.
Qed.

Lemma failing_stage_ends_lifecycle_witness :
  let h := snd (baseVirtualNode.__init__ nodeG [VInt 1] [] heap0) in
  let run := baseGestaltNode._init_ (gestaltNode.mro core0) nodeG h in
  ∃ ev cls body,
    last (trace_of run) = Some ev ∧
    gestaltNode.mro core0 !! ev_depth ev = Some cls ∧
    c_stage cls (ev_stage ev) = Some body ∧
    body nodeG (ev_args ev) (ev_kwargs ev) (ev_heap ev) = (Raise TypeError, heap_of run).
Proof.
  intros h run.
  assert (Hs : h !! self_ref nodeG = Some (OInstance (constructed_dict [VInt 1])))
    by by_computation.
  refine (failing_stage_ends_lifecycle (gestaltNode.mro core0) nodeG h _ [VInt 1] []
            TypeError gestalt_node_type (gestalt_chain core0) Hs _ _ _ keywords_free_nil _);
    by_computation.
Defined.

(** ** The ports of [gestaltNode] *)

Lemma keeps_class_attr h h' c name v :
  keeps_classes h h' → class_attr h c name = Some v → class_attr h' c name = Some v.
Proof.
  intros [_ Hk] Hc. destruct (class_attr_is_class _ _ _ _ Hc) as (n & m & d & Hty).
  unfold class_attr, type_dict in *. rewrite (Hk _ _ _ _ Hty). by rewrite Hty in Hc.
Qed.

Lemma catalog_step core self outT inT inM0 finished name port todo h :
  outT ≠ inT →
  catalog_state core self outT inT inM0 finished ((name, port) :: todo) h →
  name ∉ reserved_names →
  name ≠ "inboundActionObjectOnPort" +:+ str port →
  names_apart name port (map fst todo ++ template_attrs ++ map fst finished) →
  Forall (λ p, p ≠ port) (map snd finished) →
  ∃ r, getattr self name h = (Ok (VRef r), h) ∧
       ∀ oT iT, ∃ h',
         baseGestaltNode.bindPort core self port (VRef r) oT VNone iT h = (Ok tt, h') ∧
         catalog_state core self outT inT inM0 (finished ++ [(name, port)]) todo h'.
Proof.
  intros Hne ((outM & inM & Hinit & Hother) & Hgin & Htodo & Htpl & Hdone)
    Hname Hinb Hapart Hports.
  destruct (Htodo name port) as (r & mro & dict & Hg & Hty); [by apply list_elem_of_here|].
  exists r. split; [done|]. intros oT iT.
  destruct (initialised_instance _ _ _ _ _ _ Hinit) as [d Hs].
  assert (Hok : handlers_ok core (VRef r) VNone h).
  { split; split; simpl; try done.
    - unfold is_class. by rewrite Hty.
    - intros _. by rewrite Hty. }
  destruct (bindPort_after core self port (VRef r) oT VNone iT h d outT outM inT inM
              Hs Hinit Hok)
    as (h' & ot & it & E & _ & (no & mo & O) & (ni & mi & I) & S' & _ & _ & Hinit' & Fr).
  assert (Hk : keeps_classes h h').
  { destruct (safe_bindPort h core self port (VRef r) oT VNone iT h (keeps_classes_refl h))
      as [Hk _]. by rewrite E in Hk. }
  assert (Hdn : derived_name h ("outboundActionObjectOnPort" +:+ str port) (VRef r) = name).
  { unfold derived_name, class_name_of. simpl. by rewrite Hty. }
  rewrite Hdn in S'. cbn [derived_name not_None] in S'.
  rewrite !decide_False in Hinit' by done.
  exists h'. split; [exact E|].
  assert (Hattr : ∀ n v, n ≠ name → n ≠ "inboundActionObjectOnPort" +:+ str port →
                         getattr self n h = (Ok v, h) → getattr self n h' = (Ok v, h')).
  { intros n v ?? Hn. eapply getattr_transfer; [exact Hn|exact Hs|exact S'|].
    by rewrite !lookup_insert_ne. }
  unfold names_apart in Hapart. rewrite !Forall_app in Hapart.
  destruct Hapart as (Hatodo & Hatpl & Hadone).
  rewrite Forall_forall in Hatodo. rewrite Forall_forall in Hatpl.
  rewrite Forall_forall in Hadone. rewrite Forall_forall in Hports.
  split; [|split; [|split; [|split]]].
  - eexists _, _. split; [exact Hinit'|]. intros p Hp.
    rewrite lookup_insert_ne; [apply Hother|].
    + intros n Hn. apply (Hp n), elem_of_app. by left.
    + intros [= <-]. apply (Hp name), elem_of_app. right. by apply list_elem_of_singleton.
  - unfold is_class in *. destruct (h !! genericInboundActionObject core) as [[]|] eqn:Hc;
      try done. destruct Hk as [_ Hk]. by rewrite (Hk _ _ _ _ Hc).
  - intros n p Hn.
    destruct (Htodo n p) as (r' & m' & d' & Hg' & Hty'); [by apply list_elem_of_further|].
    destruct (Hatodo n) as [??]; [apply list_elem_of_fmap; by exists (n, p)|].
    exists r', m', d'. split; [by apply Hattr|]. destruct Hk as [_ Hk]. by apply Hk.
  - intros n Hn. destruct (Htpl n Hn) as [v Hv]. destruct (Hatpl n Hn) as [??].
    exists v. by apply Hattr.
  - intros n p Hn. apply elem_of_app in Hn as [Hn|Hn].
    + destruct (Hdone n p Hn) as (out & inb & oM & iM & G & To & Lo & Ti & Li & Co & Ci).
      destruct (Hadone n) as [??]; [apply list_elem_of_fmap; by exists (n, p)|].
      assert (p ≠ port) by (apply Hports, list_elem_of_fmap; by exists (n, p)).
      destruct Hinit as (_ & [_ Hto] & [_ Hti]).
      assert (oM = outM) as -> by congruence. assert (iM = inM) as -> by congruence.
      destruct Hinit' as (_ & [_ Hto'] & [_ Hti']).
      eexists out, inb, _, _. split; [by apply Hattr|]. split; [exact Hto'|].
      split.
      { rewrite lookup_insert_ne; [done|]. intros [= <-].
        destruct (class_attr_is_class _ _ _ _ Co) as (? & ? & ? & Hlt).
        apply lookup_lt_Some in Hlt. lia. }
      split; [exact Hti'|]. split; [by rewrite lookup_insert_ne by congruence|].
      split; by eapply keeps_class_attr.
    + apply list_elem_of_singleton in Hn as [= -> ->].
      destruct Hinit' as (_ & [_ Hto'] & [_ Hti']).
      eexists (S (length h)), (S (S (length h))), _, _.
      split. { eapply getattr_ok; [exact S'|]. by rewrite lookup_insert_ne, lookup_insert_eq. }
      split; [exact Hto'|]. split; [by rewrite lookup_insert_eq|].
      split; [exact Hti'|]. split; [by rewrite lookup_insert_eq|].
      split; [by rewrite (class_attr_lookup _ _ _ _ _ _ O)|
              by rewrite (class_attr_lookup _ _ _ _ _ _ I)].
Qed.

Lemma catalog_state_template core self outT inT inM0 finished todo h name :
  catalog_state core self outT inT inM0 finished todo h →
  name ∈ template_attrs →
  ∃ v, getattr self name h = (Ok v, h).
Proof. intros (_ & _ & _ & Htpl & _). apply Htpl. Qed.

(** Reads the handler of the next catalog entry from [self]. *)
Ltac read_handler St Hne B :=
  let r := fresh "r" in
  let G := fresh "G" in
  edestruct (catalog_step _ _ _ _ _ _ _ _ _ _ Hne St) as (r & G & B);
  [ decide_by_computation
  | decide_by_computation
  | unfold names_apart; decide_by_computation
  | decide_by_computation
  | erewrite bind_ok; last exact G ].

(** Reads a template from [self]. *)
Ltac read_template St name :=
  let v := fresh "v" in
  let Hv := fresh "Hv" in
  destruct (catalog_state_template _ _ _ _ _ _ _ _ name St ltac:(decide_by_computation))
    as [v Hv];
  erewrite bind_ok; last exact Hv.

(** The eight bindings of [gestaltNode.initPorts], one after the other. *)
Lemma initPorts_catalog core self args kwargs h outT outM inT inM :
  initialised self h outT outM inT inM →
  outT ≠ inT →
  is_class h (VRef (genericInboundActionObject core)) →
  (∀ name port, (name, port) ∈ catalog → handler_named self h name) →
  (∀ name, name ∈ template_attrs → ∃ v, getattr self name h = (Ok v, h)) →
  ∃ h', gestaltNode.initPorts core self args kwargs h = (Ok tt, h') ∧
        catalog_state core self outT inT inM catalog [] h'.
Proof.
  intros Hinit Hne Hgin Hhandlers Htemplates.
  assert (St0 : catalog_state core self outT inT inM [] catalog h).
  { split; [by eexists _, _|]. split; [done|]. split; [done|]. split; [done|].
    intros n p Hn. by apply elem_of_nil in Hn. }
  unfold catalog in St0.
  unfold gestaltNode.initPorts. cbv zeta.
  (* Node Status *)
  read_handler St0 Hne B1.
  read_template St0 "statusResponsePacket".
  destruct (B1 VNone v) as (h1 & E1 & St1). simpl in St1.
  erewrite bind_ok; last exact E1.
  (* Bootloader Command *)
  read_handler St1 Hne B2.
  read_template St1 "bootCommandRequestPacket".
  read_template St1 "bootCommandResponsePacket".
  destruct (B2 v0 v1) as (h2 & E2 & St2). simpl in St2.
  erewrite bind_ok; last exact E2.
  (* Bootloader Write *)
  read_handler St2 Hne B3.
  read_template St2 "bootWriteRequestPacket".
  read_template St2 "bootWriteResponsePacket".
  destruct (B3 v2 v3) as (h3 & E3 & St3). simpl in St3.
  erewrite bind_ok; last exact E3.
  (* Bootloader Read *)
  read_handler St3 Hne B4.
  read_template St3 "bootReadRequestPacket".
  read_template St3 "bootReadResponsePacket".
  destruct (B4 v4 v5) as (h4 & E4 & St4). simpl in St4.
  erewrite bind_ok; last exact E4.
  (* URL Request *)
  read_handler St4 Hne B5.
  read_template St4 "urlResponsePacket".
  destruct (B5 VNone v6) as (h5 & E5 & St5). simpl in St5.
  erewrite bind_ok; last exact E5.
  (* Set Address *)
  read_handler St5 Hne B6.
  read_template St5 "setAddressRequestPacket".
  read_template St5 "setAddressResponsePacket".
  destruct (B6 v7 v8) as (h6 & E6 & St6). simpl in St6.
  erewrite bind_ok; last exact E6.
  (* Identify Node *)
  read_handler St6 Hne B7.
  destruct (B7 VNone VNone) as (h7 & E7 & St7). simpl in St7.
  erewrite bind_ok; last exact E7.
  (* Reset Node *)
  read_handler St7 Hne B8.
  destruct (B8 VNone VNone) as (h8 & E8 & St8). simpl in St8.
  exists h8. split; [exact E8|exact St8].
Qed.




(** ** [gestaltNode.initPackets] *)

Lemma template_attrs_apart name :
  name ∉ template_attrs →
  Forall (λ a, a ≠ name) template_attrs.
Proof.
  intros Hn. apply Forall_forall. intros a Ha ->. by apply Hn.
Qed.

(** One case for each index of a list given by its elements. *)
Ltac each_index i Hi :=
  destruct i as [|i]; simpl in Hi;
  [injection Hi as <- | first [discriminate Hi | each_index i Hi]].

Lemma gestaltNode_initPackets_frame self args kwargs h d v :
  h !! self_ref self = Some (OInstance d) →
  d !! "bootPageSize" = Some v →
  ∃ h' d',
    gestaltNode.initPackets self args kwargs h = (Ok tt, h') ∧
    length h' = (length h + 10)%nat ∧
    h' !! self_ref self = Some (OInstance d') ∧
    (∀ i name, template_attrs !! i = Some name →
               d' !! name = Some (VRef (length h + i)%nat) ∧
               ∃ tn fields, h' !! (length h + i)%nat = Some (OTemplate tn fields)) ∧
    (∀ name, name ∉ template_attrs → d' !! name = d !! name) ∧
    (∀ r, (r < length h)%nat → r ≠ self_ref self → h' !! r = h !! r).
Proof.
  intros Hs Hv. assert (Hl := lookup_lt_Some _ _ _ Hs).
  unfold gestaltNode.initPackets.
  edestruct define_template_spec as (h1 & -> & L1 & S1 & T1 & F1); [exact Hs|].
  edestruct define_template_spec as (h2 & -> & L2 & S2 & T2 & F2); [exact S1|].
  edestruct define_template_spec as (h3 & -> & L3 & S3 & T3 & F3); [exact S2|].
  erewrite bind_ok; last first.
  { eapply getattr_ok; [exact S3|]. rewrite !lookup_insert_ne by done. exact Hv. }
  edestruct define_template_spec as (h4 & -> & L4 & S4 & T4 & F4); [exact S3|].
  edestruct define_template_spec as (h5 & -> & L5 & S5 & T5 & F5); [exact S4|].
  edestruct define_template_spec as (h6 & -> & L6 & S6 & T6 & F6); [exact S5|].
  erewrite bind_ok; last first.
  { eapply getattr_ok; [exact S6|]. rewrite !lookup_insert_ne by done. exact Hv. }
  edestruct define_template_spec as (h7 & -> & L7 & S7 & T7 & F7); [exact S6|].
  edestruct define_template_spec as (h8 & -> & L8 & S8 & T8 & F8); [exact S7|].
  edestruct define_template_spec as (h9 & -> & L9 & S9 & T9 & F9); [exact S8|].
  edestruct last_template_spec as (h10 & -> & L10 & S10 & T10 & F10); [exact S9|].
  eexists _, _. split; [reflexivity|]. split; [lia|]. split; [exact S10|].
  rewrite L9, L8, L7, L6, L5, L4, L3, L2, L1 in *.
  split; [|split].
  - intros i name Hi. rewrite (Nat.add_comm (length h)). unfold template_attrs in Hi.
    each_index i Hi; cbn [Nat.add].
    all: split; [by rewrite ?lookup_insert_ne, lookup_insert_eq by done|].
    all: eexists _, _.
    all: rewrite ?F10, ?F9, ?F8, ?F7, ?F6, ?F5, ?F4, ?F3, ?F2 by lia.
    all: first [exact T1|exact T2|exact T3|exact T4|exact T5|exact T6|exact T7|exact T8
               |exact T9|exact T10].
  - intros name Hn. apply template_attrs_apart in Hn. unfold template_attrs in Hn.
    repeat (apply Forall_cons in Hn as [? Hn]).
    by rewrite !lookup_insert_ne.
  - intros r ??. by rewrite F10, F9, F8, F7, F6, F5, F4, F3, F2, F1 by lia.
Qed.

(** X15. [gestaltNode.initPackets], when the page size is set on the
    instance, returns having created ten template objects, which are the
    ten objects following the existing ones, and stored them under the ten
    packet attributes in the order of the source.  No other attribute of
    the instance and no other object is changed. *)
Theorem initPackets_defines_ten_templates self args kwargs h d v :
  h !! self_ref self = Some (OInstance d) →
  d !! "bootPageSize" = Some v →
  let run := gestaltNode.initPackets self args kwargs h in
  fst run = Ok tt ∧
  length (snd run) = (length h + 10)%nat ∧
  (∀ i name, template_attrs !! i = Some name →
     instance_attr (snd run) (self_ref self) name = Some (VRef (length h + i)%nat) ∧
     ∃ tn fields, snd run !! (length h + i)%nat = Some (OTemplate tn fields)) ∧
  (∀ name, name ∉ template_attrs →
     instance_attr (snd run) (self_ref self) name = instance_attr h (self_ref self) name) ∧
  (∀ r, (r < length h)%nat → r ≠ self_ref self → snd run !! r = h !! r).
Proof.
  intros Hs Hv run.
  destruct (gestaltNode_initPackets_frame self args kwargs h d v Hs Hv)
    as (h' & d' & E & L & S' & Ht & Ho & F).
  subst run. rewrite E. cbn [fst snd]. unfold instance_attr, inst_dict. rewrite S', Hs.
  done.
Qed.

Lemma initPackets_defines_ten_templates_witness :
  let h := snd (gestaltNode.init nodeP [] [] heapPQ) in
  let run := gestaltNode.initPackets nodeP [] [] h in
  fst run = Ok tt ∧ length (snd run) = (length h + 10)%nat.
Proof.
  intros h run.
  assert (Hs : h !! self_ref nodeP =
               Some (OInstance (<["bootPageSize" := VInt 128]>
                                  (with_tables (constructed_dict []) 13))))
    by by_computation.
  destruct (initPackets_defines_ten_templates nodeP [] [] h _ (VInt 128) Hs)
    as (H1 & H2 & _); [by_computation|].
  split; [exact H1|exact H2].
Defined.

(** X16. Without [bootPageSize], [gestaltNode.initPackets] raises
    [AttributeError] for it when it comes to the fourth template: the first
    three templates have been created and stored on the instance, no other
    attribute and no other object is changed. *)
Theorem initPackets_needs_page_size self args kwargs h d :
  h !! self_ref self = Some (OInstance d) →
  d !! "bootPageSize" = None →
  self_class self "bootPageSize" = None →
  let run := gestaltNode.initPackets self args kwargs h in
  fst run = Raise (AttributeError "bootPageSize") ∧
  length (snd run) = (length h + 3)%nat ∧
  (∀ name, name ∈ take 3 template_attrs →
           is_Some (instance_attr (snd run) (self_ref self) name)) ∧
  (∀ name, name ∉ take 3 template_attrs →
     instance_attr (snd run) (self_ref self) name = instance_attr h (self_ref self) name) ∧
  (∀ r, (r < length h)%nat → r ≠ self_ref self → snd run !! r = h !! r).
Proof.
  intros Hs Hd Hc run.
  assert (∃ h3 t1 t2 t3,
            run = (Raise (AttributeError "bootPageSize"), h3) ∧
            length h3 = (length h + 3)%nat ∧
            h3 !! self_ref self =
              Some (OInstance
                      (<["bootCommandResponsePacket" := VRef t3]>
                         (<["bootCommandRequestPacket" := VRef t2]>
                            (<["statusResponsePacket" := VRef t1]> d)))) ∧
            (∀ r, (r < length h)%nat → r ≠ self_ref self → h3 !! r = h !! r))
    as (h3 & t1 & t2 & t3 & -> & L3 & S3 & F3).
  { subst run. unfold gestaltNode.initPackets.
    edestruct define_template_spec as (h1 & -> & L1 & S1 & T1 & F1); [exact Hs|].
    edestruct define_template_spec as (h2 & -> & L2 & S2 & T2 & F2); [exact S1|].
    edestruct define_template_spec as (h3 & -> & L3 & S3 & T3 & F3); [exact S2|].
    eexists h3, _, _, _. split.
    { unfold bind at 1, getattr at 1, inst_dict. rewrite S3.
      by rewrite !lookup_insert_ne, Hd, Hc by done. }
    split; [lia|]. split; [exact S3|].
    intros r ??. by rewrite F3, F2, F1 by lia. }
  cbn [fst snd]. split; [done|]. split; [done|].
  unfold instance_attr, inst_dict. rewrite S3, Hs. split; [|split; [|done]].
  - intros name Hn. simpl in Hn.
    repeat (apply elem_of_cons in Hn as [->|Hn];
            [by rewrite ?lookup_insert_ne, lookup_insert_eq by done|]).
    by apply elem_of_nil in Hn.
  - intros name Hn. simpl in Hn.
    rewrite !lookup_insert_ne; [done|..]; intros <-; apply Hn; decide_by_computation.
Qed.

Lemma initPackets_needs_page_size_witness :
  fst (gestaltNode.initPackets nodeP [] [] heapPQ) = Raise (AttributeError "bootPageSize").
Proof.
  refine (proj1 (initPackets_needs_page_size nodeP [] [] heapPQ _ heapPQ_nodeP _ _));
    by_computation.
Defined.

(** ** [gestaltNode] without handler classes *)

Lemma initPorts_no_handler core self args kwargs h d :
  h !! self_ref self = Some (OInstance d) →
  d !! "statusRequest" = None →
  self_class self "statusRequest" = None →
  gestaltNode.initPorts core self args kwargs h =
    (Raise (AttributeError "statusRequest"), h).
Proof.
  intros Hs Hd Hc. unfold gestaltNode.initPorts. cbv zeta.
  unfold bind at 1, getattr at 1, inst_dict. by rewrite Hs, Hd, Hc.
Qed.

(** X14. [gestaltNode.initPorts] reads the handler classes from the
    instance, and [gestaltNode] defines none: for a node type deriving from
    [gestaltNode] by single inheritance in which nothing provides
    [statusRequest], [_init_] of an instance constructed without arguments,
    which has no attribute of its own named [_recursiveInit_], raises
    [AttributeError] for it in the [initPorts] of [gestaltNode],
    after its [init] and [initPackets]; no port is bound. *)
Theorem gestaltNode_needs_handlers core user self h d :
  Forall (λ c, c_recursiveInit c = None) user →
  single_inheritance (gestalt_chain_of core user) →
  h !! self_ref self = Some (OInstance d) →
  d !! "_initArgs_" = Some (VTuple []) →
  d !! "_initKwargs_" = Some (VKwargs []) →
  d !! "_recursiveInit_" = None →
  d !! "statusRequest" = None →
  self_class self "statusRequest" = None →
  let run := baseGestaltNode._init_ (gestalt_chain_of core user) self h in
  result_of run = Raise (AttributeError "statusRequest") ∧
  map ev_call (trace_of run) =
    [("baseGestaltNode", StInit); ("baseGestaltNode", StInitPackets);
     ("baseGestaltNode", StInitPorts); ("baseGestaltNode", StOnLoad);
     ("gestaltNode", StInit); ("gestaltNode", StInitPackets);
     ("gestaltNode", StInitPorts)] ∧
  tables_empty self (heap_of run).
Proof.
  intros Hu Hchain Hs Ha Hk _ Hd Hc run.
  destruct (init_start (gestalt_chain_of core user) self h d Hs)
    as (h4 & E & S4 & T4 & L4 & F4).
  assert (Hls := lookup_lt_Some _ _ _ S4).
  set (h5 := <[self_ref self :=
                 OInstance (<["bootPageSize" := VInt 128]> (with_tables d (length h)))]> h4).
  assert (S5 : h5 !! self_ref self =
               Some (OInstance (<["bootPageSize" := VInt 128]> (with_tables d (length h)))))
    by (subst h5; heap_done).
  destruct (gestaltNode_initPackets_frame self [] [] h5 _ (VInt 128) S5)
    as (h6 & d6 & E6 & L6 & S6 & _ & Ho6 & F6); [by rewrite lookup_insert_eq|].
  assert (Hd6 : ∀ name, name ∉ template_attrs → name ≠ "bootPageSize" →
                        d6 !! name = with_tables d (length h) !! name).
  { intros name ??. rewrite Ho6 by done. by rewrite lookup_insert_ne. }
  assert (Hrun : run =
            (base_level_events (length user + 1) [] [] h4 ++
               [mkEvent (length user) "gestaltNode" StInit [] [] h4;
                mkEvent (length user) "gestaltNode" StInitPackets [] [] h5;
                mkEvent (length user) "gestaltNode" StInitPorts [] [] h6],
             (Raise (AttributeError "statusRequest"), h6))).
  { subst run. rewrite E.
    rewrite (init_tail_replays _ _ _ _ [] [] (gchain_recursiveInit _ _ Hu)
               keywords_free_nil S4);
      [|unfold with_tables; by rewrite !lookup_insert_ne..].
    apply (gestalt_level_raise core user Hu Hchain) with (k := length user);
      [exact keywords_free_nil| |lia|rewrite (gchain_length core user); lia].
    intros fuel.
    rewrite (gestalt_level_unfold core user Hu Hchain) by exact keywords_free_nil.
    unfold level_stages.
    erewrite lbind_ok; last first.
    { erewrite call_stage_defined by reflexivity. simpl.
      erewrite setattr_ok by exact S4. reflexivity. }
    fold h5.
    erewrite lbind_ok; last first.
    { erewrite call_stage_defined by reflexivity. simpl. rewrite E6. reflexivity. }
    assert (Hports :
      (let* _ := call_stage (length user) (gestaltNode.cls core) StInitPorts self [] [] in
       call_stage (length user) (gestaltNode.cls core) StOnLoad self [] []) h6 =
      ([mkEvent (length user) "gestaltNode" StInitPorts [] [] h6],
       (Raise (AttributeError "statusRequest"), h6))).
    { unfold lbind. erewrite call_stage_defined by reflexivity.
      cbn [gestaltNode.cls c_name].
      rewrite (initPorts_no_handler core self [] [] h6 d6 S6); [done| |done].
      rewrite Hd6 by (done || decide_by_computation). unfold with_tables.
      by rewrite !lookup_insert_ne. }
    rewrite Hports. reflexivity. }
  rewrite Hrun. unfold result_of, trace_of, heap_of. cbn [fst snd].
  split; [done|]. split; [done|].
  destruct T4 as (_ & [_ Hto] & [_ Hti]).
  assert (Hlo := lookup_lt_Some _ _ _ Hto). assert (Hli := lookup_lt_Some _ _ _ Hti).
  assert (length h5 = length h4) by (subst h5; len).
  assert (length h ≠ self_ref self) by congruence.
  assert (S (length h) ≠ self_ref self) by congruence.
  exists (length h), (S (length h)).
  split. { unfold inst_dict. rewrite S6. by eexists. }
  split; split.
  - eapply getattr_ok; [exact S6|]. rewrite Hd6 by (done || decide_by_computation).
    unfold with_tables. by rewrite lookup_insert_ne, lookup_insert_eq.
  - rewrite F6 by lia. subst h5. by heap_simpl.
  - eapply getattr_ok; [exact S6|]. rewrite Hd6 by (done || decide_by_computation).
    unfold with_tables. by rewrite lookup_insert_eq.
  - rewrite F6 by lia. subst h5. by heap_simpl.
Qed.

Lemma gestaltNode_needs_handlers_witness :
  let h := snd (baseVirtualNode.__init__ nodeG [] [] heap0) in
  result_of (baseGestaltNode._init_ (gestalt_chain_of core0 []) nodeG h) =
    Raise (AttributeError "statusRequest").
Proof.
  intros h.
  assert (Hs : h !! self_ref nodeG = Some (OInstance (constructed_dict [])))
    by by_computation.
  refine (proj1 (gestaltNode_needs_handlers core0 [] nodeG h _
                   (Forall_nil_2 _) (gestalt_chain core0) Hs _ _ _ _ _)); by_computation.
Defined.

(** ** A node class that adds only handler classes to [gestaltNode] *)

Lemma passive_user user :
  Forall passive user → Forall (λ c, c_recursiveInit c = None) user.
Proof. intros H. eapply Forall_impl; [exact H|]. by intros c [? _]. Qed.

Lemma passive_levels core user self args kwargs h :
  Forall passive user →
  single_inheritance (gestalt_chain_of core user) →
  keywords_free kwargs →
  ∀ k fuel depth,
    (depth + k = length user)%nat → (k + 1 < fuel)%nat →
    baseGestaltNode._recursiveInit_ fuel (gestalt_chain_of core user)
      self depth args kwargs h =
    (base_level_events (length user + 1) args kwargs h ++
       fst (level_stages (length user) (gestaltNode.cls core) self args kwargs h),
     snd (level_stages (length user) (gestaltNode.cls core) self args kwargs h)).
Proof.
  intros Hp Hchain Hfree. assert (Hu := passive_user _ Hp).
  induction k as [|k IH]; intros fuel depth Hd Hf.
  - assert (depth = length user) as -> by lia.
    destruct fuel as [|[|fuel]]; [lia|lia|]. by apply gestalt_level_unfold.
  - destruct fuel as [|fuel]; [lia|].
    destruct (lookup_lt_is_Some_2 user depth) as [c Hc]; [lia|].
    assert (Hc' : gestalt_chain_of core user !! depth = Some c).
    { unfold gestalt_chain_of. by rewrite lookup_app_l by lia. }
    destruct (lookup_lt_is_Some_2 (gestalt_chain_of core user) (depth + 1)) as [p Hpar].
    { rewrite (gchain_length core user). lia. }
    destruct (Forall_lookup_1 _ _ _ _ Hp Hc) as [_ Hnone].
    rewrite (recursiveInit_step_chain _ _ _ _ _ _ _ _ Hchain Hc' Hpar),
      (gchain_lookup core user Hu) by lia.
    rewrite (keywords_free_recursiveInit _ _ Hfree).
    replace (depth + 1)%nat with (S depth) by lia.
    unfold lbind at 1. rewrite IH by lia.
    destruct (level_stages (length user) (gestaltNode.cls core) self args kwargs h)
      as [t [[[]|e] h']]; [|done].
    unfold lbind, call_stage. rewrite !Hnone. cbn [fst snd].
    by rewrite !app_nil_r.
Qed.

Lemma catalog_names_apart name port :
  (name, port) ∈ catalog →
  (name ∉ template_attrs) ∧ name ≠ "bootPageSize" ∧ (name ∉ table_attrs).
Proof.
  intros Hin. unfold catalog in Hin.
  repeat (apply elem_of_cons in Hin as [[= -> ->]|Hin];
          [repeat split; decide_by_computation|]).
  by apply elem_of_nil in Hin.
Qed.



(** ** The names generated for omitted handlers *)

Lemma generated_names_differ p q :
  "outboundActionObjectOnPort" +:+ str p ≠ "inboundActionObjectOnPort" +:+ str q.
Proof. simpl. discriminate. Qed.

Lemma outbound_name_inj p q :
  "outboundActionObjectOnPort" +:+ str p = "outboundActionObjectOnPort" +:+ str q → p = q.
Proof. simpl. intros [= H]. by apply (inj pretty). Qed.

Lemma inbound_name_inj p q :
  "inboundActionObjectOnPort" +:+ str p = "inboundActionObjectOnPort" +:+ str q → p = q.
Proof. simpl. intros [= H]. by apply (inj pretty). Qed.

Lemma defaults_ok core h :
  is_class h (VRef (genericOutboundActionObjectBlockOnReply core)) →
  is_class h (VRef (genericInboundActionObject core)) →
  handlers_ok core VNone VNone h.
Proof. intros ??. split; (split; [done|by intros [=]]). Qed.



(** ** The stage methods of [baseGestaltNode] *)

Lemma passive_chain user self args kwargs h :
  Forall passive user →
  single_inheritance (chain_of user) →
  keywords_free kwargs →
  ∀ k fuel depth,
    (depth + k = length user)%nat → (k < fuel)%nat →
    baseGestaltNode._recursiveInit_ fuel (chain_of user) self depth args kwargs h =
    (base_level_events (length user) args kwargs h, (Ok tt, h)).
Proof.
  intros Hp Hchain Hfree. assert (Hu := passive_user _ Hp).
  induction k as [|k IH]; intros fuel depth Hd Hf;
    (destruct fuel as [|fuel]; [lia|]).
  - assert (depth = length user) as -> by lia.
    destruct (chain_base user) as [Hb Hv]. by apply base_level_unfold.
  - destruct (lookup_lt_is_Some_2 user depth) as [c Hc]; [lia|].
    assert (Hc' : chain_of user !! depth = Some c).
    { unfold chain_of. by rewrite lookup_app_l by lia. }
    destruct (lookup_lt_is_Some_2 (chain_of user) (depth + 1)) as [p Hpar].
    { rewrite chain_length. lia. }
    destruct (Forall_lookup_1 _ _ _ _ Hp Hc) as [_ Hnone].
    rewrite (recursiveInit_step_chain _ _ _ _ _ _ _ _ Hchain Hc' Hpar), chain_lookup_drop
      by (done || lia).
    rewrite (keywords_free_recursiveInit _ _ Hfree).
    replace (depth + 1)%nat with (S depth) by lia.
    unfold lbind at 1. rewrite IH by lia.
    unfold lbind, call_stage. rewrite !Hnone. cbn [fst snd].
    by rewrite !app_nil_r.
Qed.

(** X19. The stage methods of [baseGestaltNode] do nothing: for a node
    type built by single inheritance whose classes define no stage method,
    [_init_] of an instance constructed with no keyword named [self],
    [recursionDepth] or [_recursionDepth_], which has no attribute of its
    own named [_recursiveInit_], returns after calling the four
    methods of [baseGestaltNode], [init] with the constructor arguments and
    the others without argument; it has created two empty tables and
    changed no other object than the instance. *)
Theorem default_stages_do_nothing user self h d args kwargs :
  Forall passive user →
  single_inheritance (chain_of user) →
  h !! self_ref self = Some (OInstance d) →
  d !! "_initArgs_" = Some (VTuple args) →
  d !! "_initKwargs_" = Some (VKwargs kwargs) →
  d !! "_recursiveInit_" = None →
  keywords_free kwargs →
  let run := baseGestaltNode._init_ (chain_of user) self h in
  result_of run = Ok tt ∧
  map ev_call_args (trace_of run) =
    [("baseGestaltNode", StInit, args, kwargs);
     ("baseGestaltNode", StInitPackets, [], []);
     ("baseGestaltNode", StInitPorts, [], []);
     ("baseGestaltNode", StOnLoad, [], [])] ∧
  tables_empty self (heap_of run) ∧
  length (heap_of run) = S (S (length h)) ∧
  (∀ r, (r < length h)%nat → r ≠ self_ref self → heap_of run !! r = h !! r).
Proof.
  intros Hp Hchain Hs Ha Hk _ Hfree run.
  destruct (init_start (chain_of user) self h d Hs) as (h4 & E & S4 & T4 & L4 & F4).
  assert (Hrun : run = (base_level_events (length user) args kwargs h4, (Ok tt, h4))).
  { subst run. rewrite E.
    assert (Hm : lookup_recursiveInit (chain_of user) = Some Gestalt_recursiveInit).
    { apply node_type_recursiveInit. exists user. split; [done|by apply passive_user]. }
    rewrite (init_tail_replays _ _ _ _ args kwargs Hm Hfree S4);
      [|unfold with_tables; by rewrite !lookup_insert_ne..].
    apply (passive_chain user self args kwargs h4 Hp Hchain Hfree (length user)); [lia|].
    rewrite chain_length. lia. }
  rewrite Hrun. unfold result_of, trace_of, heap_of. cbn [fst snd].
  split; [done|]. split; [done|]. split; [by eexists _, _|]. done.
Qed.

Lemma default_stages_do_nothing_witness :
  let h := snd (baseVirtualNode.__init__ nodeP [VInt 7] [] heap0) in
  let run := baseGestaltNode._init_ (chain_of []) nodeP h in
  result_of run = Ok tt ∧ tables_empty nodeP (heap_of run).
Proof.
  intros h run.
  assert (Hs : h !! self_ref nodeP = Some (OInstance (constructed_dict [VInt 7])))
    by by_computation.
  destruct (default_stages_do_nothing [] nodeP h _ [VInt 7] [] (Forall_nil_2 _)
              plain_chain Hs)
    as (H1 & _ & H3 & _);
    [by_computation|by_computation|by_computation|exact keywords_free_nil|].
  split; [exact H1|exact H3].
Defined.

(** ** The base recorded in a derived class *)


